(** * Widget state reconciliation of the pizzaz-shop cart

    A shallow embedding of [src/pizzaz-shop/index.tsx]: the merge effect
    that reconciles [toolInput], [toolOutput] and [widgetState] with the
    local cart state, the change detection around [lastMergedStateRef],
    and the local edit [adjustQuantity].

    The JavaScript values the component handles are embedded as a tree
    type; objects and [Map]s are association lists kept in insertion
    order, which is the order [JSON.stringify] and [Map.prototype.values]
    enumerate them in. (JavaScript enumerates property names that are
    array indices before the others; the fields of a cart state and of
    an item are not such names, and the lists are taken to be in
    enumeration order.) *)

From Stdlib Require Import List String Ascii ZArith Bool Lia.
From Stdlib Require Import DecimalString.
Import ListNotations.
Open Scope string_scope.
Open Scope Z_scope.

(** ** Insertion-ordered maps

    Both a JavaScript object and a [Map] replace the value of a key that
    is present without moving it, and append a key that is new. *)

Module OMap.
Section Defs.
Variables K V : Type.
Variable eqb : K -> K -> bool.

Fixpoint get (m : list (K * V)) (k : K) : option V :=
  match m with
  | [] => None
  | (k', v) :: m' => if eqb k' k then Some v else get m' k
  end.

Fixpoint set (m : list (K * V)) (k : K) (v : V) : list (K * V) :=
  match m with
  | [] => [(k, v)]
  | (k', v') :: m' =>
      if eqb k' k then (k', v) :: m' else (k', v') :: set m' k v
  end.

Definition has (m : list (K * V)) (k : K) : bool :=
  match get m k with Some _ => true | None => false end.

(** [set_all m ops] performs the assignments of [ops] from left to right. *)
Definition set_all (m ops : list (K * V)) : list (K * V) :=
  fold_left (fun acc kv => set acc (fst kv) (snd kv)) ops m.

Definition values (m : list (K * V)) : list V := map snd m.
Definition keys (m : list (K * V)) : list K := map fst m.
End Defs.

Arguments get {K V}.
Arguments set {K V}.
Arguments has {K V}.
Arguments set_all {K V}.
Arguments values {K V}.
Arguments keys {K V}.
End OMap.

(** ** JavaScript values *)

Module JS.

(** Numbers are the integer-valued ones (quantities, deltas); [VBigInt] is
    kept apart because [JSON.stringify] refuses it. Strings are byte
    strings. *)
Unset Elimination Schemes.
Inductive value : Type :=
| VUndefined
| VNull
| VBool (b : bool)
| VNum (n : Z)
| VBigInt (n : Z)
| VStr (s : string)
| VArr (elems : list value)
| VObj (props : list (string * value)).
Set Elimination Schemes.

(** [v == null] *)
Definition nullish (v : value) : bool :=
  match v with VUndefined | VNull => true | _ => false end.

(** ToBoolean *)
Definition truthy (v : value) : bool :=
  match v with
  | VUndefined | VNull => false
  | VBool b => b
  | VNum n | VBigInt n => negb (n =? 0)
  | VStr s => negb (s =? EmptyString)%string
  | VArr _ | VObj _ => true
  end.

(** [typeof v === "object"] *)
Definition typeof_object (v : value) : bool :=
  match v with VNull | VArr _ | VObj _ => true | _ => false end.

(** [a ?? b] *)
Definition coalesce (a b : value) : value := if nullish a then b else a.

(** Structural comparison. On primitives it is [===] and the
    SameValueZero of [Map] keys; on objects and arrays JavaScript
    compares references, which coincides with it as long as distinct
    objects used as keys differ in content ([CartItem] declares
    [name : string], so keys are strings). *)
Fixpoint value_eqb (a b : value) : bool :=
  match a, b with
  | VUndefined, VUndefined => true
  | VNull, VNull => true
  | VBool x, VBool y => Bool.eqb x y
  | VNum x, VNum y => x =? y
  | VBigInt x, VBigInt y => x =? y
  | VStr x, VStr y => (x =? y)%string
  | VArr xs, VArr ys =>
      (fix elems_eqb (xs ys : list value) : bool :=
         match xs, ys with
         | [], [] => true
         | x :: xs', y :: ys' => value_eqb x y && elems_eqb xs' ys'
         | _, _ => false
         end) xs ys
  | VObj ps, VObj qs =>
      (fix props_eqb (ps qs : list (string * value)) : bool :=
         match ps, qs with
         | [], [] => true
         | (k, x) :: ps', (l, y) :: qs' =>
             (k =? l)%string && value_eqb x y && props_eqb ps' qs'
         | _, _ => false
         end) ps qs
  | _, _ => false
  end.

(** Decimal rendering of an array index or an integer. *)
Definition string_of_Z (n : Z) : string := NilZero.string_of_int (Z.to_int n).

Definition string_of_nat (n : nat) : string := string_of_Z (Z.of_nat n).

Fixpoint indexed {A : Type} (i : nat) (l : list A) : list (string * A) :=
  match l with
  | [] => []
  | x :: l' => (string_of_nat i, x) :: indexed (S i) l'
  end.

Fixpoint chars (s : string) : list value :=
  match s with
  | EmptyString => []
  | String c s' => VStr (String c EmptyString) :: chars s'
  end.

(** The own enumerable properties an object spread [{...v}] copies. *)
Definition own_props (v : value) : list (string * value) :=
  match v with
  | VObj ps => ps
  | VArr xs => indexed 0 xs
  | VStr s => indexed 0 (chars s)
  | _ => []
  end.

Definition obj_get (ps : list (string * value)) (k : string) : option value :=
  OMap.get String.eqb ps k.

Definition obj_set (ps : list (string * value)) (k : string) (v : value) :=
  OMap.set String.eqb ps k v.

(** [v.k] for the field names the component reads ([items], [name],
    [quantity]); an absent property reads as [undefined]. Reading a
    property of [null] or [undefined] throws in JavaScript; every such
    read in the source is guarded by [?.] or made on a value known not
    to be nullish, and the embedding gives [undefined] there. *)
Definition get_prop (v : value) (k : string) : value :=
  match obj_get (own_props v) k with
  | Some x => x
  | None => VUndefined
  end.

(** [Object.hasOwn(v, k)] *)
Definition has_prop (v : value) (k : string) : bool :=
  OMap.has String.eqb (own_props v) k.

(** Array indices are written with digits; the field names the
    component reads are not. *)
Definition starts_with_digit (s : string) : bool :=
  match s with
  | String c _ => (48 <=? N_of_ascii c)%N && (N_of_ascii c <=? 57)%N
  | EmptyString => false
  end.

(** [{ ...a, ...b }] on top of the properties [ps] copied so far. *)
Definition spread (ps : list (string * value)) (b : value) :=
  OMap.set_all String.eqb ps (own_props b).

(** [Array.isArray(v) ? v : []] *)
Definition array_or_empty (v : value) : list value :=
  match v with VArr xs => xs | _ => [] end.

(** *** [JSON.stringify]

    A call either returns or throws; it throws a [TypeError] on a
    [BigInt] anywhere in the value. *)
Inductive outcome (A : Type) : Type :=
| Ret (a : A)
| Throw.
Arguments Ret {A}.
Arguments Throw {A}.

Definition bind {A B : Type} (x : outcome A) (f : A -> outcome B) : outcome B :=
  match x with
  | Ret a => f a
  | Throw => Throw
  end.

Definition dquote : ascii := "034"%char.
Definition backslash : ascii := "092"%char.

Definition hex_digit (n : N) : ascii :=
  ascii_of_N (if (n <? 10)%N then 48 + n else 87 + n)%N.

(** QuoteJSONString on one character. *)
Definition escape_char (c : ascii) : string :=
  let n := N_of_ascii c in
  if (n =? 34)%N then String backslash (String dquote EmptyString)
  else if (n =? 92)%N then String backslash (String backslash EmptyString)
  else if (n =? 8)%N then String backslash "b"
  else if (n =? 9)%N then String backslash "t"
  else if (n =? 10)%N then String backslash "n"
  else if (n =? 12)%N then String backslash "f"
  else if (n =? 13)%N then String backslash "r"
  else if (n <? 32)%N then
    String backslash
      ("u00" ++ String (hex_digit (n / 16)) (String (hex_digit (n mod 16)) EmptyString))
  else String c EmptyString.

Fixpoint escape (s : string) : string :=
  match s with
  | EmptyString => EmptyString
  | String c s' => escape_char c ++ escape s'
  end.

Definition quote (s : string) : string :=
  String dquote (escape s ++ String dquote EmptyString).

(** Runs [f] over a list, stopping at the first exception. *)
Definition mapM {A B : Type} (f : A -> outcome B) : list A -> outcome (list B) :=
  fix go (l : list A) : outcome (list B) :=
    match l with
    | [] => Ret []
    | x :: l' => bind (f x) (fun y => bind (go l') (fun ys => Ret (y :: ys)))
    end.

(** An [undefined] element of an array is printed as [null]. *)
Definition element (o : option string) : string :=
  match o with
  | Some s => s
  | None => "null"
  end.

(** A property whose value is [undefined] is left out. *)
Fixpoint members (l : list (string * option string)) : list string :=
  match l with
  | [] => []
  | (k, Some s) :: l' => (quote k ++ ":" ++ s) :: members l'
  | (_, None) :: l' => members l'
  end.

(** The result is [None] when [JSON.stringify] returns [undefined]. *)
Fixpoint JSON_stringify (v : value) : outcome (option string) :=
  match v with
  | VUndefined => Ret None
  | VNull => Ret (Some "null")
  | VBool b => Ret (Some (if b then "true" else "false"))
  | VNum n => Ret (Some (string_of_Z n))
  | VBigInt _ => Throw
  | VStr s => Ret (Some (quote s))
  | VArr xs =>
      bind (mapM JSON_stringify xs) (fun l =>
      Ret (Some ("[" ++ String.concat "," (map element l) ++ "]")))
  | VObj ps =>
      bind (mapM (fun kv => bind (JSON_stringify (snd kv))
                              (fun o => Ret (fst kv, o))) ps) (fun l =>
      Ret (Some ("{" ++ String.concat "," (members l) ++ "}")))
  end.

(** [===] on two results of [JSON.stringify] (a string or [undefined]). *)
Definition jstr_eqb (a b : option string) : bool :=
  match a, b with
  | Some x, Some y => (x =? y)%string
  | None, None => true
  | _, _ => false
  end.

(** A JavaScript object has no two properties of the same name. *)
Fixpoint distinct (ks : list string) : bool :=
  match ks with
  | [] => true
  | k :: ks' => negb (existsb (String.eqb k) ks') && distinct ks'
  end.

Fixpoint well_formed (v : value) : bool :=
  match v with
  | VArr xs => forallb well_formed xs
  | VObj ps =>
      distinct (map fst ps) && forallb (fun kv => well_formed (snd kv)) ps
  | _ => true
  end.

Fixpoint bigint_free (v : value) : bool :=
  match v with
  | VBigInt _ => false
  | VArr xs => forallb bigint_free xs
  | VObj ps => forallb (fun kv => bigint_free (snd kv)) ps
  | _ => true
  end.

(** *** [JSON.stringify(value, null, 2)]

    The indented form: the elements of a non-empty array or object stand
    on lines of their own, two spaces deeper than the line that closes
    it, and a property name is followed by a colon and a space. *)
Definition newline : string := String "010"%char EmptyString.

Definition gap : string := "  ".

Fixpoint members_pretty (l : list (string * option string)) : list string :=
  match l with
  | [] => []
  | (k, Some s) :: l' => (quote k ++ ": " ++ s) :: members_pretty l'
  | (_, None) :: l' => members_pretty l'
  end.

(** [open] and [close] around the parts, one per line; the two brackets
    alone when there is no part. *)
Definition block (open close stepback : string) (parts : list string) : string :=
  match parts with
  | [] => open ++ close
  | _ =>
      let indent := stepback ++ gap in
      open ++ newline ++ indent
      ++ String.concat ("," ++ newline ++ indent) parts
      ++ newline ++ stepback ++ close
  end.

Fixpoint JSON_pretty (v : value) (stepback : string) {struct v}
  : outcome (option string) :=
  match v with
  | VUndefined => Ret None
  | VNull => Ret (Some "null")
  | VBool b => Ret (Some (if b then "true" else "false"))
  | VNum n => Ret (Some (string_of_Z n))
  | VBigInt _ => Throw
  | VStr s => Ret (Some (quote s))
  | VArr xs =>
      bind (mapM (fun x => JSON_pretty x (stepback ++ gap)) xs) (fun l =>
      Ret (Some (block "[" "]" stepback (map element l))))
  | VObj ps =>
      bind (mapM (fun kv => bind (JSON_pretty (snd kv) (stepback ++ gap))
                              (fun o => Ret (fst kv, o))) ps) (fun l =>
      Ret (Some (block "{" "}" stepback (members_pretty l))))
  end.

End JS.

(** ** The cart widget *)

Module Cart.
Import JS.

(** [useRef<string>("__cart_merge_unset__")] *)
Definition merge_unset : option string := Some "__cart_merge_unset__".

Definition empty_cart : value := VObj [("items", VArr [])].

(** The initialiser handed to [useWidgetState]. *)
Definition initialCartState (widgetState : value) : value :=
  if truthy widgetState && typeof_object widgetState then widgetState
  else empty_cart.

(** [Array.isArray(cartState?.items) ? cartState.items : []] *)
Definition cartItems (cartState : value) : list value :=
  array_or_empty (get_prop cartState "items").

(** *** Local edit *)

Fixpoint findIndex (p : value -> bool) (l : list value) : option nat :=
  match l with
  | [] => None
  | x :: l' => if p x then Some O else option_map S (findIndex p l')
  end.

(** [items.splice(idx, 1)] *)
Definition splice1 (idx : nat) (l : list value) : list value :=
  firstn idx l ++ skipn (S idx) l.

(** [items[idx] = v], for [idx] within the array. *)
Definition assign (idx : nat) (v : value) (l : list value) : list value :=
  firstn idx l ++ v :: skipn (S idx) l.

(** [{ ...item }] *)
Definition shallow_copy (item : value) : value := VObj (own_props item).

(** [q + delta] for a number [q]. [CartItem] declares
    [quantity : number]; on another operand type [+] concatenates
    strings or throws, and the embedding gives no result. *)
Definition plus_delta (q : value) (delta : Z) : option Z :=
  match q with
  | VNum n => Some (n + delta)
  | _ => None
  end.

(** The function passed to [setCartState] by [adjustQuantity]. The
    result is [None] only where [plus_delta] is: the item found holds a
    quantity that is not a number. *)
Definition adjustQuantity_updater (name : string) (delta : Z) (prevState : value)
  : option value :=
  let baseState := coalesce prevState (VObj []) in
  let items :=
    match get_prop baseState "items" with
    | VArr xs => map shallow_copy xs
    | _ => []
    end in
  match findIndex (fun item => value_eqb (get_prop item "name") (VStr name)) items with
  | None => Some baseState
  | Some idx =>
      let current := nth idx items VUndefined in
      match plus_delta (coalesce (get_prop current "quantity") (VNum 0)) delta with
      | None => None
      | Some sum =>
          let nextQuantity := Z.max 0 sum in
          let items' :=
            if nextQuantity =? 0 then splice1 idx items
            else assign idx
                   (VObj (obj_set (own_props current) "quantity" (VNum nextQuantity)))
                   items in
          Some (VObj (obj_set (own_props baseState) "items" (VArr items')))
      end
  end.

(** What one call of [adjustQuantity] does to the state cell:
    [edit_committed] tells whether [setCartState] was called. *)
Record edit_result : Type := {
  edit_state : value;
  edit_committed : bool
}.

Definition adjustQuantity (name : string) (delta : Z) (cartState : value)
  : option edit_result :=
  if negb (truthy (VStr name)) || (delta =? 0) then
    Some {| edit_state := cartState; edit_committed := false |}
  else
    option_map (fun next => {| edit_state := next; edit_committed := true |})
               (adjustQuantity_updater name delta cartState).

(** *** Merge effect *)

Definition widgetStateEqual (a b : value) : outcome bool :=
  if nullish a && nullish b then Ret true
  else if nullish a || nullish b then Ret false
  else
    bind (JSON_stringify a) (fun sa =>
    bind (JSON_stringify b) (fun sb =>
    Ret (jstr_eqb sa sb))).

(** [Array.isArray(toolInput?.items) ? (toolInput.items ?? []) : []] *)
Definition incomingItems (toolInput : value) : list value :=
  match get_prop toolInput "items" with
  | VArr xs => array_or_empty (coalesce (VArr xs) (VArr []))
  | _ => []
  end.

Definition mergeBase (widgetState cartState : value) : value :=
  if truthy widgetState && typeof_object widgetState then widgetState
  else coalesce cartState empty_cart.

Definition baseItems (baseState : value) : list value :=
  array_or_empty (get_prop baseState "items").

(** [Map<string, CartItem>] *)
Definition name_map : Type := list (value * value).

Definition map_get (m : name_map) (k : value) : value :=
  match OMap.get value_eqb m k with
  | Some v => v
  | None => VUndefined
  end.

(** Body of the first loop: [if (item?.name) itemsByName.set(item.name, item)]. *)
Definition index_item (m : name_map) (item : value) : name_map :=
  let name := get_prop item "name" in
  if truthy name then OMap.set value_eqb m name item else m.

(** Body of the second loop. *)
Definition overlay_item (m : name_map) (item : value) : name_map :=
  let name := get_prop item "name" in
  if truthy name then
    OMap.set value_eqb m name (VObj (spread (own_props (map_get m name)) item))
  else m.

Definition itemsByName (base incoming : list value) : name_map :=
  fold_left overlay_item incoming (fold_left index_item base []).

Definition nextItems (base incoming : list value) : list value :=
  OMap.values (itemsByName base incoming).

Definition nextState (baseState : value) (incoming : list value) : value :=
  VObj (obj_set (own_props baseState) "items"
          (VArr (nextItems (baseItems baseState) incoming))).

Definition shouldForceSyncFromResponse (widgetState toolOutput : value) : bool :=
  nullish widgetState && negb (nullish toolOutput).

(** The state [nextState] the effect computes from its four dependencies. *)
Definition mergedState (toolInput widgetState cartState : value) : value :=
  nextState (mergeBase widgetState cartState) (incomingItems toolInput).

(** What one run of the effect does: the content of
    [lastMergedStateRef] afterwards, the argument of [setCartState] if
    it was called, and whether the run ended in an exception. *)
Record effect_result : Type := {
  ref_after : option string;
  committed : option value;
  thrown : bool
}.

Definition merge_effect (toolInput toolOutput widgetState cartState : value)
    (lastMergedStateRef : option string) : effect_result :=
  if nullish toolInput && nullish toolOutput && nullish widgetState then
    {| ref_after := lastMergedStateRef; committed := None; thrown := false |}
  else
    let next := mergedState toolInput widgetState cartState in
    match JSON_stringify next with
    | Throw =>
        {| ref_after := lastMergedStateRef; committed := None; thrown := true |}
    | Ret serialized =>
        let force := shouldForceSyncFromResponse widgetState toolOutput in
        if negb force && jstr_eqb serialized lastMergedStateRef then
          {| ref_after := lastMergedStateRef; committed := None; thrown := false |}
        else if force then
          {| ref_after := serialized; committed := Some next; thrown := false |}
        else
          match widgetStateEqual next cartState with
          | Throw =>
              {| ref_after := serialized; committed := None; thrown := true |}
          | Ret false =>
              {| ref_after := serialized; committed := Some next; thrown := false |}
          | Ret true =>
              {| ref_after := serialized; committed := None; thrown := false |}
          end
    end.

(** *** The state cell and its two writers *)

Record engine : Type := {
  cartState : value;
  lastMergedStateRef : option string
}.

(** Modelled from the spec: the setter returned by [useWidgetState]
    ([../use-widget-state] is not among the sources). It is the State
    Publisher: the committed value becomes the content of the state
    cell. *)
Definition setCartState (next : option value) (current : value) : value :=
  match next with
  | Some v => v
  | None => current
  end.

Definition run_merge (toolInput toolOutput widgetState : value) (e : engine) : engine :=
  let r := merge_effect toolInput toolOutput widgetState (cartState e)
             (lastMergedStateRef e) in
  {| cartState := setCartState (committed r) (cartState e);
     lastMergedStateRef := ref_after r |}.

Definition run_edit (name : string) (delta : Z) (e : engine) : option engine :=
  option_map
    (fun r => {| cartState := edit_state r;
                 lastMergedStateRef := lastMergedStateRef e |})
    (adjustQuantity name delta (cartState e)).

(** *** Histories

    The effect runs when one of the three feeds changes; an edit is a
    click on one of the two buttons of an item. *)
Inductive event : Type :=
| Merge (toolInput toolOutput widgetState : value)
| Edit (name : string) (delta : Z).

Definition step (ev : event) (e : engine) : option engine :=
  match ev with
  | Merge toolInput toolOutput widgetState =>
      Some (run_merge toolInput toolOutput widgetState e)
  | Edit name delta => run_edit name delta e
  end.

Fixpoint run (evs : list event) (e : engine) : option engine :=
  match evs with
  | [] => Some e
  | ev :: evs' =>
      match step ev e with
      | Some e' => run evs' e'
      | None => None
      end
  end.

Definition initial (widgetState : value) : engine :=
  {| cartState := initialCartState widgetState;
     lastMergedStateRef := merge_unset |}.

(** The item wire contract on quantities: a number that is not negative. *)
Definition quantity_ok (item : value) : bool :=
  match get_prop item "quantity" with
  | VNum q => 0 <=? q
  | _ => false
  end.

Definition quantities_ok (state : value) : bool :=
  forallb quantity_ok (cartItems state).

(** What the host may deliver: a well-formed [toolInput] whose items
    satisfy the wire contract, and a [widgetState] that is a collection
    state. *)
Definition admissible (ev : event) : bool :=
  match ev with
  | Merge toolInput _ widgetState =>
      well_formed toolInput
      && forallb quantity_ok (incomingItems toolInput)
      && quantities_ok widgetState
  | Edit _ _ => true
  end.

(** Notation for examples: an item and a state with these items. *)
Definition item (name : string) (quantity : Z) : value :=
  VObj [("name", VStr name); ("quantity", VNum quantity)].

Definition cart_of (items : list value) : value := VObj [("items", VArr items)].

(** The serialisation of a state, [None] when there is none. *)
Definition serialized (state : value) : option string :=
  match JSON_stringify state with
  | Ret s => s
  | Throw => None
  end.

(** *** Notions used in the proofs *)

(** Every entry of the map satisfies the wire contract on quantities. *)
Definition values_ok (m : name_map) : Prop :=
  Forall (fun kv => quantity_ok (snd kv) = true) m.

(** Every entry of the map sits under its own name, and no name is
    bound twice. *)
Definition named_map (m : name_map) : Prop :=
  NoDup (OMap.keys m) /\
  Forall (fun kv => truthy (fst kv) = true /\ get_prop (snd kv) "name" = fst kv) m.

(** The second loop treats [it] as an update of the entry under [k]. *)
Definition named (k : value) (it : value) : bool :=
  truthy (get_prop it "name") && value_eqb (get_prop it "name") k.

(** The property assignments the second loop makes to the entry under
    [k], in order. *)
Definition assignments (k : value) (incoming : list value) : list (string * value) :=
  flat_map own_props (filter (named k) incoming).

(** Properties whose values hold no [BigInt]. *)
Definition clean (ps : list (string * value)) : Prop :=
  Forall (fun kv => bigint_free (snd kv) = true) ps.

(** The entry the first loop makes for an item. *)
Definition entry_of (it : value) : value * value := (get_prop it "name", it).


(** A history whose [toolInput]s are JavaScript values. *)
Definition well_formed_event (ev : event) : bool :=
  match ev with
  | Merge toolInput _ _ => well_formed toolInput
  | Edit _ _ => true
  end.

(** The cart state is an object and the reference holds a string. *)
Definition cell_ok (e : engine) : Prop :=
  truthy (cartState e) && typeof_object (cartState e) = true /\
  exists s, lastMergedStateRef e = Some s.


(** The names of a sequence of items, in order. *)
Definition names (items : list value) : list value :=
  map (fun it => get_prop it "name") items.

(** An item whose quantity is a number and at least one. *)
Definition quantity_positive (item : value) : bool :=
  match get_prop item "quantity" with
  | VNum q => 1 <=? q
  | _ => false
  end.



End Cart.

(** ** The JSON panels *)

Module Panel.
Import JS.

Section PrettyJson.

(** The text [`${error}`] of the exception [JSON.stringify] throws; it
    is the engine's. *)
Variable error_text : string.

(** The function memoised by [usePrettyJson]; [None] stands for
    [undefined]. *)
Definition usePrettyJson (value : JS.value) : option string :=
  if nullish value then Some "null"
  else
    match JSON_pretty value EmptyString with
    | Ret s => s
    | Throw => Some ("<<unable to render: " ++ error_text ++ ">>")
    end.

End PrettyJson.
End Panel.

(** ** [useWidgetProps] *)

Module WidgetProps.
Import JS.

(** The optional argument [defaultState]: a value ([undefined] when it
    is left out) or a function, given by what it returns. *)
Inductive default_state : Type :=
| DefaultValue (v : value)
| DefaultFunction (result : value).

(** [typeof v === "object" && v !== null] *)
Definition is_object (v : value) : bool :=
  typeof_object v && negb (value_eqb v VNull).

Definition useWidgetProps (toolResponse toolOutput : value)
    (defaultState : default_state) : value :=
  let structuredContent :=
    if is_object (get_prop toolResponse "structuredContent")
    then get_prop toolResponse "structuredContent"
    else VNull in
  let props := coalesce structuredContent toolOutput in
  let fallback :=
    match defaultState with
    | DefaultFunction result => result
    | DefaultValue v => coalesce v VNull
    end in
  let resolved := coalesce props fallback in
  coalesce resolved (VObj []).

End WidgetProps.

(** * Properties *)

(** ** Insertion-ordered maps *)

Module OMapFacts.
Import OMap.
Section Facts.
Context {K V : Type}.
Variable eqb : K -> K -> bool.
Hypothesis eqb_eq : forall a b, eqb a b = true <-> a = b.

Implicit Types (m ops : list (K * V)) (k : K) (v : V).

Lemma eqb_refl k : eqb k k = true.
Proof. now apply eqb_eq. Qed.

Lemma eqb_neq (a b : K) : a <> b -> eqb a b = false.
Proof.
  intros H. destruct (eqb a b) eqn:E; [|reflexivity].
  apply eqb_eq in E. contradiction.
Qed.

Lemma eqb_dec (a b : K) : {a = b} + {a <> b}.
Proof.
  destruct (eqb a b) eqn:E.
  - left. now apply eqb_eq.
  - right. intros ->. rewrite eqb_refl in E. discriminate.
Qed.

Lemma get_set_same m k v : get eqb (set eqb m k v) k = Some v.
Proof.
  induction m as [|[k' v'] m IH]; simpl.
  - now rewrite eqb_refl.
  - destruct (eqb k' k) eqn:E; simpl; rewrite E; auto.
Qed.

Lemma get_set_other m k k' v :
  k <> k' -> get eqb (set eqb m k v) k' = get eqb m k'.
Proof.
  intros Hne. induction m as [|[k0 v0] m IH]; simpl.
  - now rewrite eqb_neq.
  - destruct (eqb k0 k) eqn:E; simpl.
    + apply eqb_eq in E. subst k0. now rewrite eqb_neq.
    + now rewrite IH.
Qed.

Lemma get_set m k k' v :
  get eqb (set eqb m k v) k' = if eqb k k' then Some v else get eqb m k'.
Proof.
  destruct (eqb k k') eqn:E.
  - apply eqb_eq in E. subst. apply get_set_same.
  - apply get_set_other. intros ->. rewrite eqb_refl in E. discriminate.
Qed.

Lemma set_set_same m k v v' : set eqb (set eqb m k v) k v' = set eqb m k v'.
Proof.
  induction m as [|[k0 v0] m IH]; simpl.
  - now rewrite eqb_refl.
  - destruct (eqb k0 k) eqn:E; simpl; rewrite E; [reflexivity|now rewrite IH].
Qed.

Lemma set_id m k v : get eqb m k = Some v -> set eqb m k v = m.
Proof.
  induction m as [|[k0 v0] m IH]; simpl; [discriminate|].
  destruct (eqb k0 k) eqn:E; intros H.
  - now inversion H.
  - now rewrite IH.
Qed.

Lemma keys_set_present m k v :
  has eqb m k = true -> keys (set eqb m k v) = keys m.
Proof.
  unfold has, keys. induction m as [|[k0 v0] m IH]; simpl; [discriminate|].
  destruct (eqb k0 k) eqn:E; simpl; intros H; [reflexivity|].
  now rewrite IH.
Qed.

Lemma has_set m k k' v :
  has eqb (set eqb m k v) k' = eqb k k' || has eqb m k'.
Proof.
  unfold has. rewrite get_set. now destruct (eqb k k').
Qed.

Lemma has_In m k : has eqb m k = true <-> In k (keys m).
Proof.
  unfold has, keys. induction m as [|[k0 v0] m IH]; simpl.
  - split; [discriminate|tauto].
  - destruct (eqb k0 k) eqn:E.
    + apply eqb_eq in E. split; auto.
    + rewrite IH. split; [auto|]. intros [->|H]; [|assumption].
      rewrite eqb_refl in E. discriminate.
Qed.

(** A key that is present is assigned in place, so two assignments to
    different keys can be swapped when the first key is present. *)
Lemma set_comm_present m k k' v v' :
  k <> k' -> has eqb m k = true ->
  set eqb (set eqb m k v) k' v' = set eqb (set eqb m k' v') k v.
Proof.
  intros Hne. unfold has.
  induction m as [|[k0 v0] m IH]; simpl; [discriminate|].
  destruct (eqb k0 k) eqn:E; destruct (eqb k0 k') eqn:E'; simpl;
    rewrite ?E, ?E'; intros H; try reflexivity.
  - apply eqb_eq in E, E'. congruence.
  - now rewrite IH.
Qed.

Lemma keys_set_absent m k v :
  has eqb m k = false -> keys (set eqb m k v) = (keys m ++ [k])%list.
Proof.
  unfold has, keys. induction m as [|[k0 v0] m IH]; simpl; [reflexivity|].
  destruct (eqb k0 k) eqn:E; simpl; [discriminate|].
  intros H. now rewrite IH.
Qed.

Lemma NoDup_keys_set m k v : NoDup (keys m) -> NoDup (keys (set eqb m k v)).
Proof.
  intros H. destruct (has eqb m k) eqn:E.
  - now rewrite keys_set_present.
  - rewrite keys_set_absent by assumption.
    apply NoDup_app; [assumption|repeat constructor; simpl; tauto|].
    intros x Hx [->|[]]. apply has_In in Hx. congruence.
Qed.

(** Two maps with the same distinct keys in the same order and the
    same value under each key are the same list. *)
Lemma ext_NoDup m m' :
  keys m = keys m' -> NoDup (keys m) ->
  (forall k, get eqb m k = get eqb m' k) -> m = m'.
Proof.
  unfold keys. revert m'.
  induction m as [|[k v] m IH]; intros [|[k' v'] m']; simpl;
    try discriminate; [reflexivity|].
  intros Hk Hnd Hget. inversion Hk; subst k'. inversion Hnd; subst.
  pose proof (Hget k) as Hk0. simpl in Hk0. rewrite eqb_refl in Hk0.
  inversion Hk0; subst v'. f_equal. apply IH; auto.
  intros k0. specialize (Hget k0). simpl in Hget.
  destruct (eqb k k0) eqn:E; [|assumption].
  apply eqb_eq in E. subst k0.
  assert (Hm : get eqb m k = None).
  { destruct (get eqb m k) eqn:G; [|reflexivity].
    exfalso. apply H2. apply has_In. unfold has. now rewrite G. }
  assert (Hm' : get eqb m' k = None).
  { destruct (get eqb m' k) eqn:G; [|reflexivity].
    exfalso. apply H2. rewrite H1. apply has_In. unfold has. now rewrite G. }
  congruence.
Qed.

Lemma get_app m m' k :
  get eqb (m ++ m')%list k =
  match get eqb m k with
  | Some v => Some v
  | None => get eqb m' k
  end.
Proof.
  induction m as [|[a b] m IH]; simpl; [reflexivity|].
  destruct (eqb a k); auto.
Qed.

Lemma set_absent m k v :
  has eqb m k = false -> set eqb m k v = (m ++ [(k, v)])%list.
Proof.
  unfold has. induction m as [|[k0 v0] m IH]; simpl; [reflexivity|].
  destruct (eqb k0 k); [discriminate|]. intros H. now rewrite IH.
Qed.

Lemma Forall_set (Q : K * V -> Prop) m k v :
  Forall Q m -> Q (k, v) -> Forall Q (set eqb m k v).
Proof.
  intros Hm Hq. induction Hm as [|[k0 v0] m H0 Hm IH]; simpl.
  - now constructor.
  - destruct (eqb k0 k) eqn:E.
    + apply eqb_eq in E. subst k0. now constructor.
    + now constructor.
Qed.

Lemma get_None_notin m k : get eqb m k = None <-> ~ In k (keys m).
Proof.
  rewrite <- has_In. unfold has. destruct (get eqb m k); split; congruence.
Qed.

(** With distinct keys the first and the last binding of a key are the
    same one. *)
Lemma get_rev_NoDup m k : NoDup (keys m) -> get eqb (rev m) k = get eqb m k.
Proof.
  unfold keys. induction m as [|[k0 v0] m IH]; simpl; [reflexivity|].
  intros H. inversion H as [|? ? Hnotin Hnd]; subst.
  rewrite get_app, IH by assumption. simpl.
  destruct (eqb k0 k) eqn:E.
  - apply eqb_eq in E. subst k0.
    apply get_None_notin in Hnotin. now rewrite Hnotin.
  - now destruct (get eqb m k).
Qed.

(** *** Sequences of assignments *)

Lemma set_all_app m ops ops' :
  set_all eqb m (ops ++ ops') = set_all eqb (set_all eqb m ops) ops'.
Proof. unfold set_all. apply fold_left_app. Qed.

(** The value read after [set_all] is the last one assigned. *)
Lemma get_set_all m ops k :
  get eqb (set_all eqb m ops) k =
  match get eqb (rev ops) k with
  | Some v => Some v
  | None => get eqb m k
  end.
Proof.
  revert m. induction ops as [|[k0 v0] ops IH] using rev_ind; intros m.
  - reflexivity.
  - rewrite set_all_app, rev_app_distr. simpl.
    rewrite get_set. destruct (eqb k0 k); [reflexivity|apply IH].
Qed.

Lemma has_set_all_mono m ops k :
  has eqb m k = true -> has eqb (set_all eqb m ops) k = true.
Proof.
  revert m. induction ops as [|[k0 v0] ops IH]; intros m H; simpl; [assumption|].
  apply IH. rewrite has_set, H. apply orb_true_r.
Qed.

Lemma keys_set_all_present m ops :
  (forall k, In k (keys ops) -> has eqb m k = true) ->
  keys (set_all eqb m ops) = keys m.
Proof.
  revert m. induction ops as [|[k0 v0] ops IH]; intros m H; simpl; [reflexivity|].
  rewrite IH.
  - apply keys_set_present. apply H. now left.
  - intros k Hk. rewrite has_set. rewrite (H k); [apply orb_true_r|now right].
Qed.

(** An assignment that is overwritten later does not matter. *)
Lemma set_all_overwritten m ops k v v' :
  has eqb m k = true -> In k (keys ops) ->
  set_all eqb (set eqb m k v) ops = set_all eqb (set eqb m k v') ops.
Proof.
  revert m. induction ops as [|[k0 v0] ops IH]; intros m Hm Hin; simpl in *.
  - contradiction.
  - destruct (eqb_dec k0 k) as [->|Hne].
    + now rewrite !set_set_same.
    + destruct Hin as [Heq|Hin]; [congruence|].
      rewrite (set_comm_present m k k0 v v0) by auto.
      rewrite (set_comm_present m k k0 v' v0) by auto.
      apply IH; [|assumption].
      rewrite has_set, Hm. apply orb_true_r.
Qed.

(** Assignments whose final values the map already holds leave it as
    it is. *)
Lemma set_all_absorbed m ops :
  (forall k v, get eqb (rev ops) k = Some v -> get eqb m k = Some v) ->
  set_all eqb m ops = m.
Proof.
  revert m. induction ops as [|[k0 v0] ops IH]; intros m H; simpl; [reflexivity|].
  simpl in H.
  assert (Hrest : forall k v, get eqb (rev ops) k = Some v -> get eqb m k = Some v).
  { intros k v G. apply H. rewrite get_app, G. reflexivity. }
  destruct (get eqb (rev ops) k0) as [vlast|] eqn:G.
  - assert (Hm : get eqb m k0 = Some vlast) by (apply Hrest; assumption).
    assert (Hin : In k0 (keys ops)).
    { apply in_rev. unfold keys. rewrite <- map_rev.
      apply has_In. unfold has. now rewrite G. }
    rewrite (set_all_overwritten m ops k0 v0 vlast).
    + rewrite (set_id _ _ _ Hm). apply IH, Hrest.
    + unfold has. now rewrite Hm.
    + assumption.
  - assert (Hm : get eqb m k0 = Some v0).
    { apply H. rewrite get_app, G. simpl. now rewrite eqb_refl. }
    rewrite (set_id _ _ _ Hm). apply IH, Hrest.
Qed.

(** Assigning fresh, distinct keys appends them in order. *)
Lemma set_all_fresh m ops :
  NoDup (keys (m ++ ops)%list) -> set_all eqb m ops = (m ++ ops)%list.
Proof.
  revert m. induction ops as [|[k0 v0] ops IH]; intros m H; simpl.
  - now rewrite app_nil_r.
  - assert (Hk : has eqb m k0 = false).
    { destruct (has eqb m k0) eqn:E; [|reflexivity].
      apply has_In in E. unfold keys in *. rewrite map_app in H. simpl in H.
      apply NoDup_remove_2 in H. exfalso. apply H. apply in_or_app. now left. }
    rewrite set_absent by assumption.
    rewrite IH; rewrite <- app_assoc; simpl; [reflexivity|assumption].
Qed.

(** Replaying a sequence of assignments changes nothing. *)
Lemma set_all_idem m ops :
  set_all eqb (set_all eqb m ops) ops = set_all eqb m ops.
Proof.
  apply set_all_absorbed. intros k v G.
  rewrite get_set_all, G. reflexivity.
Qed.

End Facts.
End OMapFacts.


(** ** JavaScript values *)

Module JSFacts.
Import JS.

Lemma value_induction (P : value -> Prop) :
  P VUndefined -> P VNull ->
  (forall b, P (VBool b)) -> (forall n, P (VNum n)) ->
  (forall n, P (VBigInt n)) -> (forall s, P (VStr s)) ->
  (forall xs, Forall P xs -> P (VArr xs)) ->
  (forall ps, Forall (fun kv => P (snd kv)) ps -> P (VObj ps)) ->
  forall v, P v.
Proof.
  intros Hu Hn Hb Hz Hbig Hs Ha Ho.
  fix IH 1. intros [| |b|n|n|s|xs|ps].
  - exact Hu.
  - exact Hn.
  - apply Hb.
  - apply Hz.
  - apply Hbig.
  - apply Hs.
  - apply Ha. induction xs as [|x xs IHxs]; constructor; [apply IH|exact IHxs].
  - apply Ho. induction ps as [|[k x] ps IHps]; constructor; [apply IH|exact IHps].
Qed.

Lemma value_eqb_eq a b : value_eqb a b = true <-> a = b.
Proof.
  revert b. induction a as [| |x|x|x|x|xs IH|ps IH] using value_induction;
    intros [| |y|y|y|y|ys|qs]; simpl;
    try (split; [discriminate|intros H; discriminate H]);
    try (split; reflexivity).
  - rewrite Bool.eqb_true_iff. split; congruence.
  - rewrite Z.eqb_eq. split; congruence.
  - rewrite Z.eqb_eq. split; congruence.
  - rewrite String.eqb_eq. split; congruence.
  - revert ys. induction IH as [|x xs Hx _ IHxs]; intros [|y ys];
      try (split; [discriminate|intros H; discriminate H]); [tauto|].
    rewrite andb_true_iff, Hx, IHxs. split.
    + intros [-> H]. now inversion H.
    + intros H. inversion H. auto.
  - revert qs. induction IH as [|[k x] ps Hx _ IHps]; intros [|[l y] qs];
      try (split; [discriminate|intros H; discriminate H]); [tauto|].
    simpl in Hx.
    rewrite !andb_true_iff, String.eqb_eq, Hx, IHps. split.
    + intros [[-> ->] H]. now inversion H.
    + intros H. inversion H. auto.
Qed.

Lemma string_eqb_eq (a b : string) : String.eqb a b = true <-> a = b.
Proof. apply String.eqb_eq. Qed.

Lemma string_of_nat_digit i : starts_with_digit (string_of_nat i) = true.
Proof.
  unfold string_of_nat, string_of_Z, NilZero.string_of_int.
  destruct (Z.of_nat i) as [|p|p] eqn:E; [reflexivity| |lia].
  simpl. unfold NilZero.string_of_uint.
  destruct (Pos.to_uint p); reflexivity.
Qed.

Lemma get_indexed_none {A : Type} i (l : list A) k :
  starts_with_digit k = false -> OMap.get String.eqb (indexed i l) k = None.
Proof.
  intros Hk. revert i. induction l as [|x l IH]; intros i; simpl; [reflexivity|].
  destruct (String.eqb (string_of_nat i) k) eqn:E; [|apply IH].
  apply String.eqb_eq in E. subst k.
  rewrite string_of_nat_digit in Hk. discriminate.
Qed.

(** Only an object has a property of one of the names the component
    reads. *)
Lemma get_prop_object v k x :
  starts_with_digit k = false -> get_prop v k = x -> x <> VUndefined ->
  exists ps, v = VObj ps.
Proof.
  intros Hk Hget Hx. destruct v as [| |b|n|n|s|xs|ps];
    try (exfalso; apply Hx; rewrite <- Hget; reflexivity).
  - exfalso. apply Hx. rewrite <- Hget. unfold get_prop, obj_get. simpl.
    now rewrite get_indexed_none.
  - exfalso. apply Hx. rewrite <- Hget. unfold get_prop, obj_get. simpl.
    now rewrite get_indexed_none.
  - now exists ps.
Qed.

Lemma distinct_NoDup ks : distinct ks = true -> NoDup ks.
Proof.
  induction ks as [|k ks IH]; simpl; [constructor|].
  intros H. apply andb_true_iff in H. destruct H as [H1 H2].
  constructor; [|now apply IH].
  intros Hin. apply negb_true_iff in H1.
  assert (existsb (String.eqb k) ks = true); [|congruence].
  apply existsb_exists. exists k. split; [assumption|apply String.eqb_refl].
Qed.

Lemma well_formed_props ps :
  well_formed (VObj ps) = true -> NoDup (OMap.keys ps).
Proof.
  simpl. intros H. apply andb_true_iff in H. now apply distinct_NoDup.
Qed.

Lemma well_formed_elem xs x :
  well_formed (VArr xs) = true -> In x xs -> well_formed x = true.
Proof. simpl. intros H. now apply forallb_forall. Qed.

Lemma Forall_indexed {A : Type} (Q : A -> Prop) i (l : list A) :
  Forall Q l -> Forall (fun kv => Q (snd kv)) (indexed i l).
Proof.
  intros H. revert i. induction H; intros i; simpl; constructor; auto.
Qed.

Lemma well_formed_own_props v :
  well_formed v = true ->
  Forall (fun kv => well_formed (snd kv) = true) (own_props v).
Proof.
  destruct v as [| |b|n|n|s|xs|ps]; simpl; try constructor.
  - intros _. apply (Forall_indexed (fun x => well_formed x = true)).
    induction s; simpl; constructor; auto.
  - intros H. apply (Forall_indexed (fun x => well_formed x = true)).
    apply Forall_forall. now apply forallb_forall.
  - intros H. apply andb_true_iff in H. destruct H as [_ H].
    rewrite forallb_forall in H. apply Forall_forall. exact H.
Qed.

Lemma well_formed_get_prop v k :
  well_formed v = true -> well_formed (get_prop v k) = true.
Proof.
  intros H. apply well_formed_own_props in H.
  unfold get_prop, obj_get. induction H as [|[k0 v0] ps H0 _ IH]; simpl.
  - reflexivity.
  - destruct (String.eqb k0 k); assumption.
Qed.

(** The fields of [{ ...a, ...b }]: those of [b] win, the others are
    those of [a]. *)
Lemma get_prop_spread ps b field :
  NoDup (OMap.keys (own_props b)) ->
  get_prop (VObj (spread ps b)) field =
  if has_prop b field then get_prop b field else get_prop (VObj ps) field.
Proof.
  intros Hnd. unfold get_prop, has_prop, OMap.has, obj_get, spread. simpl own_props.
  rewrite (OMapFacts.get_set_all String.eqb string_eqb_eq).
  rewrite (OMapFacts.get_rev_NoDup String.eqb string_eqb_eq) by assumption.
  now destruct (OMap.get String.eqb (own_props b) field).
Qed.

(** An object always serialises to a string, unless the call throws. *)
Lemma stringify_obj_some ps o : JSON_stringify (VObj ps) = Ret o -> o <> None.
Proof.
  simpl. destruct (mapM _ ps); simpl; intros H; inversion H; discriminate.
Qed.

Lemma mapM_total {A B : Type} (f : A -> outcome B) (l : list A) :
  Forall (fun x => exists y, f x = Ret y) l -> exists ys, mapM f l = Ret ys.
Proof.
  induction 1 as [|x l [y Hy] _ [ys Hys]]; simpl.
  - eexists. reflexivity.
  - rewrite Hy. simpl. rewrite Hys. eexists. reflexivity.
Qed.

(** Without a [BigInt] inside, [JSON.stringify] returns. *)
Lemma stringify_bigint_free v :
  bigint_free v = true -> exists o, JSON_stringify v = Ret o.
Proof.
  induction v as [| |x|x|x|x|xs IH|ps IH] using value_induction; simpl;
    try (intros _; eexists; reflexivity); try discriminate.
  - intros H. rewrite forallb_forall in H. rewrite Forall_forall in IH.
    destruct (mapM_total JSON_stringify xs) as [l ->].
    + apply Forall_forall. intros x Hx. apply IH; auto.
    + eexists. reflexivity.
  - intros H. rewrite forallb_forall in H. rewrite Forall_forall in IH.
    destruct (mapM_total (fun kv => bind (JSON_stringify (snd kv))
                                      (fun o => Ret (fst kv, o))) ps) as [l ->].
    + apply Forall_forall. intros kv Hkv.
      destruct (IH kv Hkv (H kv Hkv)) as [o ->]. eexists. reflexivity.
    + eexists. reflexivity.
Qed.

End JSFacts.

(** ** The cart widget *)

Module CartFacts.
Import JS Cart JSFacts.
Local Open Scope list_scope.

(** Reading the property that was just written. *)
Ltac read_written :=
  unfold get_prop, obj_get, obj_set; simpl own_props;
  rewrite (OMapFacts.get_set_same String.eqb string_eqb_eq).

(** *** Source Multiplexer *)

(** C9. For every raw [toolInput], the incoming items are the [items]
    field exactly when that field is an array, and the empty sequence
    otherwise: for a [toolInput] that is [null] or [undefined], for one
    without the field and for one whose field is not an array. The
    function is total, so it neither fails nor has an effect. *)
Theorem incomingItems_array_or_empty (toolInput : value) (xs : list value) :
  incomingItems toolInput = xs <->
  get_prop toolInput "items" = VArr xs \/
  (xs = [] /\ forall ys, get_prop toolInput "items" <> VArr ys).
Proof.
  unfold incomingItems. destruct (get_prop toolInput "items") eqn:E; simpl;
    try (split;
         [intros <-; right; split; [reflexivity|intros ys; discriminate]
         |intros [H|[-> _]]; [discriminate H|reflexivity]]).
  split.
  - intros ->. now left.
  - intros [H|[_ H]]; [now inversion H|now destruct (H elems)].
Qed.

(** *** Change Detector *)

Lemma merge_effect_runs toolInput toolOutput widgetState cartState last :
  nullish toolInput && nullish toolOutput && nullish widgetState = false ->
  merge_effect toolInput toolOutput widgetState cartState last =
  let next := mergedState toolInput widgetState cartState in
  match JSON_stringify next with
  | Throw => {| ref_after := last; committed := None; thrown := true |}
  | Ret serialized =>
      let force := shouldForceSyncFromResponse widgetState toolOutput in
      if negb force && jstr_eqb serialized last then
        {| ref_after := last; committed := None; thrown := false |}
      else if force then
        {| ref_after := serialized; committed := Some next; thrown := false |}
      else
        match widgetStateEqual next cartState with
        | Throw => {| ref_after := serialized; committed := None; thrown := true |}
        | Ret false =>
            {| ref_after := serialized; committed := Some next; thrown := false |}
        | Ret true =>
            {| ref_after := serialized; committed := None; thrown := false |}
        end
  end.
Proof. intros H. unfold merge_effect. now rewrite H. Qed.


(** C10. When [toolInput], [toolOutput] and [widgetState] are all
    [null] (or [undefined]) the effect returns at once: [setCartState]
    is not called and [lastMergedStateRef] keeps its content, whatever
    the local cart state holds. *)
Theorem merge_effect_all_null toolInput toolOutput widgetState cartState last :
  nullish toolInput = true -> nullish toolOutput = true ->
  nullish widgetState = true ->
  merge_effect toolInput toolOutput widgetState cartState last =
    {| ref_after := last; committed := None; thrown := false |} /\
  run_merge toolInput toolOutput widgetState
    {| Cart.cartState := cartState; lastMergedStateRef := last |} =
    {| Cart.cartState := cartState; lastMergedStateRef := last |}.
Proof.
  intros Hi Ho Hw. unfold run_merge, merge_effect. simpl.
  rewrite Hi, Ho, Hw. simpl. split; reflexivity.
Qed.

Lemma merge_effect_all_null_witness :
  nullish VNull = true /\
  merge_effect VNull VNull VNull (cart_of [item "A" 1]) merge_unset =
    {| ref_after := merge_unset; committed := None; thrown := false |}.
Proof.
  split; [reflexivity|].
  apply (merge_effect_all_null VNull VNull VNull (cart_of [item "A" 1]) merge_unset);
    reflexivity.
Defined.


(** C8. A state that [JSON.stringify] refuses is not treated as
    changed: with a [BigInt] in an opaque field of [widgetState] the
    call at the head of the change detection throws, the effect ends
    in that exception, nothing is published and [lastMergedStateRef]
    keeps its content. *)
Theorem serialization_failure_throws :
  let widgetState := VObj [("items", VArr []); ("orderRef", VBigInt 1)] in
  JSON_stringify (mergedState VNull widgetState empty_cart) = Throw /\
  merge_effect VNull VNull widgetState empty_cart merge_unset =
    {| ref_after := merge_unset; committed := None; thrown := true |}.
Proof. split; reflexivity. Qed.

(** The same happens for every run whose next state does not serialise. *)
Lemma merge_effect_stringify_throws toolInput toolOutput widgetState cartState last :
  nullish toolInput && nullish toolOutput && nullish widgetState = false ->
  JSON_stringify (mergedState toolInput widgetState cartState) = Throw ->
  merge_effect toolInput toolOutput widgetState cartState last =
    {| ref_after := last; committed := None; thrown := true |}.
Proof.
  intros H Hs. rewrite merge_effect_runs by assumption.
  cbv zeta. now rewrite Hs.
Qed.

(** C1, as stated, fails: with [toolInput = {}] and the initial cart the
    next state serialises to a string other than the content of
    [lastMergedStateRef], yet nothing is published, and the reference
    is overwritten all the same. *)
Lemma publish_iff_marker_differs_fails :
  ~ (forall toolInput toolOutput widgetState cartState last s,
       shouldForceSyncFromResponse widgetState toolOutput = false ->
       JSON_stringify (mergedState toolInput widgetState cartState) = Ret s ->
       let r := merge_effect toolInput toolOutput widgetState cartState last in
       (committed r = Some (mergedState toolInput widgetState cartState) <->
        jstr_eqb s last = false) /\
       (ref_after r = s /\ jstr_eqb s last = false <-> committed r <> None)).
Proof.
  intros H.
  destruct (H (VObj []) VNull VNull empty_cart merge_unset
              (serialized (mergedState (VObj []) VNull empty_cart))
              eq_refl eq_refl) as [[_ H1] _].
  specialize (H1 eq_refl). discriminate H1.
Qed.

(** C1, amended. When the effect runs without forced resync and both
    serialisations succeed, it publishes the next state if and only if
    its serialisation differs from [lastMergedStateRef] and
    [widgetStateEqual] finds it different from the local cart state;
    [lastMergedStateRef] holds the new serialisation afterwards,
    whether or not a publish occurred. *)
Theorem change_detector_two_gates
    toolInput toolOutput widgetState cartState last s same :
  nullish toolInput && nullish toolOutput && nullish widgetState = false ->
  shouldForceSyncFromResponse widgetState toolOutput = false ->
  JSON_stringify (mergedState toolInput widgetState cartState) = Ret s ->
  widgetStateEqual (mergedState toolInput widgetState cartState) cartState
    = Ret same ->
  let r := merge_effect toolInput toolOutput widgetState cartState last in
  (committed r = Some (mergedState toolInput widgetState cartState) <->
   jstr_eqb s last = false /\ same = false) /\
  (committed r = None <-> jstr_eqb s last = true \/ same = true) /\
  ref_after r = s /\
  thrown r = false.
Proof.
  intros Hrun Hf Hs He r. subst r.
  rewrite merge_effect_runs by assumption. cbv zeta.
  rewrite Hs, Hf, He. simpl.
  destruct (jstr_eqb s last) eqn:E; simpl.
  - assert (last = s) as ->.
    { destruct s, last; simpl in E; try discriminate; [|reflexivity].
      apply String.eqb_eq in E. now subst. }
    repeat split; try tauto; try discriminate; intuition discriminate.
  - destruct same; simpl; repeat split; try tauto; try discriminate;
      intuition discriminate.
Qed.

Lemma change_detector_two_gates_witness :
  let toolInput := cart_of [item "A" 1] in
  let r := merge_effect toolInput VNull VNull empty_cart merge_unset in
  committed r = Some (mergedState toolInput VNull empty_cart) <->
  jstr_eqb (serialized (mergedState toolInput VNull empty_cart)) merge_unset = false
  /\ false = false.
Proof.
  apply (change_detector_two_gates (cart_of [item "A" 1]) VNull VNull empty_cart
           merge_unset (serialized (mergedState (cart_of [item "A" 1]) VNull empty_cart))
           false); reflexivity.
Defined.

(** *** Local Edit Applier *)

Lemma findIndex_none p l :
  Forall (fun x => p x = false) l -> findIndex p l = None.
Proof.
  induction 1 as [|x l Hx _ IH]; simpl; [reflexivity|].
  now rewrite Hx, IH.
Qed.

Lemma findIndex_first p pre cur post :
  Forall (fun x => p x = false) pre -> p cur = true ->
  findIndex p (pre ++ cur :: post) = Some (List.length pre).
Proof.
  intros Hpre Hcur. induction Hpre as [|x l Hx _ IH]; simpl.
  - now rewrite Hcur.
  - now rewrite Hx, IH.
Qed.

Lemma name_differs it name :
  get_prop it "name" <> VStr name ->
  value_eqb (get_prop (shallow_copy it) "name") (VStr name) = false.
Proof.
  intros H. change (get_prop (shallow_copy it) "name") with (get_prop it "name").
  destruct (value_eqb (get_prop it "name") (VStr name)) eqn:E; [|reflexivity].
  apply value_eqb_eq in E. contradiction.
Qed.

Lemma copies_not_named xs name :
  Forall (fun it => get_prop it "name" <> VStr name) xs ->
  Forall (fun x => value_eqb (get_prop x "name") (VStr name) = false)
         (map shallow_copy xs).
Proof.
  intros H. apply Forall_map. revert H. apply Forall_impl.
  intros it. apply name_differs.
Qed.

Lemma truthy_name name : name <> EmptyString -> truthy (VStr name) = true.
Proof.
  intros H. simpl. destruct (String.eqb name EmptyString) eqn:E; [|reflexivity].
  apply String.eqb_eq in E. contradiction.
Qed.

Lemma edit_guard_passes name delta :
  name <> EmptyString -> delta <> 0 ->
  negb (truthy (VStr name)) || (delta =? 0) = false.
Proof.
  intros Hn Hd. rewrite truthy_name by assumption.
  simpl. now apply Z.eqb_neq.
Qed.

(** An edit for a name that no item carries hands back [prevState ?? {}]. *)
Lemma updater_missing st name delta :
  Forall (fun it => get_prop it "name" <> VStr name) (cartItems st) ->
  adjustQuantity_updater name delta st = Some (coalesce st (VObj [])).
Proof.
  intros H. unfold adjustQuantity_updater.
  rewrite findIndex_none; [reflexivity|].
  unfold cartItems in H. unfold coalesce.
  destruct (nullish st) eqn:N.
  - constructor.
  - destruct (get_prop st "items"); try constructor.
    now apply copies_not_named.
Qed.

(** C6, as stated, fails on a [null] state: an edit for an unknown name
    turns it into the empty object, which is neither the state as it
    was nor [{items: []}]. *)
Lemma noop_on_null_state_fails :
  ~ (forall st name delta r,
       name = EmptyString \/ delta = 0 \/
         Forall (fun it => get_prop it "name" <> VStr name) (cartItems st) ->
       adjustQuantity name delta st = Some r ->
       edit_state r = if nullish st then empty_cart else st).
Proof.
  intros H.
  specialize (H VNull "Z" 1 {| edit_state := VObj []; edit_committed := true |}).
  simpl in H. discriminate H; [|reflexivity].
  right. right. constructor.
Qed.

(** C6, amended. With an empty name or a zero delta [adjustQuantity]
    returns before [setCartState]: the state stays as it is, a [null]
    state stays [null]. With a name that no item carries the updater
    hands back the state unchanged when it is not [null], and the
    empty object [{}] when it is. *)
Theorem adjustQuantity_noop st name delta :
  (name = EmptyString \/ delta = 0 ->
   adjustQuantity name delta st =
     Some {| edit_state := st; edit_committed := false |}) /\
  (name <> EmptyString -> delta <> 0 ->
   Forall (fun it => get_prop it "name" <> VStr name) (cartItems st) ->
   adjustQuantity name delta st =
     Some {| edit_state := if nullish st then VObj [] else st;
             edit_committed := true |}) /\
  adjustQuantity "Z" 1 (cart_of [item "A" 1]) =
    Some {| edit_state := cart_of [item "A" 1]; edit_committed := true |}.
Proof.
  split; [|split].
  - intros [->| ->]; unfold adjustQuantity; simpl; [reflexivity|].
    now rewrite orb_true_r.
  - intros Hn Hd Hmiss. unfold adjustQuantity.
    rewrite edit_guard_passes by assumption.
    now rewrite updater_missing by assumption.
  - reflexivity.
Qed.



(** *** Merge Engine *)

Lemma named_is_object it name :
  get_prop it "name" = name -> truthy name = true -> exists ps, it = VObj ps.
Proof.
  intros H Ht. apply (get_prop_object it "name" name); [reflexivity|assumption|].
  intros ->. discriminate.
Qed.

Lemma overlay_named m it n :
  get_prop it "name" = VStr n -> n <> EmptyString ->
  overlay_item m it =
  OMap.set value_eqb m (VStr n)
    (VObj (spread (own_props (map_get m (VStr n))) it)).
Proof.
  intros H Hn. unfold overlay_item. now rewrite H, truthy_name.
Qed.

Lemma overlay_other m it k :
  get_prop it "name" <> k ->
  OMap.get value_eqb (overlay_item m it) k = OMap.get value_eqb m k.
Proof.
  intros H. unfold overlay_item.
  destruct (truthy (get_prop it "name")); [|reflexivity].
  now apply (OMapFacts.get_set_other value_eqb value_eqb_eq).
Qed.

Lemma overlay_all_other inc m k :
  Forall (fun x => get_prop x "name" <> k) inc ->
  OMap.get value_eqb (fold_left overlay_item inc m) k = OMap.get value_eqb m k.
Proof.
  intros H. revert m. induction H as [|x inc Hx _ IH]; intros m; simpl.
  - reflexivity.
  - now rewrite IH, overlay_other.
Qed.

Lemma itemsByName_app base inc1 inc2 :
  itemsByName base (inc1 ++ inc2) =
  fold_left overlay_item inc2 (itemsByName base inc1).
Proof. unfold itemsByName. apply fold_left_app. Qed.

(** C3. The second loop of the merge, at an incoming item [it] with a
    non-empty name [n], coming after the items [inc1] and before the
    items [inc2]: the entry under [n] becomes the shallow merge of the
    existing entry and [it] (a field of [it] wins, a field [it] lacks is
    the one of the existing entry); without an existing entry [it]
    itself is appended; an existing entry keeps its place and the
    other entries are untouched; when no later item carries the name,
    this entry is the one of the final map, so the later of two items
    of one name wins. The resulting items are the values of the map in
    insertion order. *)
Theorem merge_overlay base inc1 it inc2 n :
  well_formed it = true -> get_prop it "name" = VStr n -> n <> EmptyString ->
  let before := itemsByName base inc1 in
  let after := overlay_item before it in
  let final := itemsByName base (inc1 ++ it :: inc2) in
  (forall field,
     get_prop (map_get after (VStr n)) field =
     if has_prop it field then get_prop it field
     else get_prop (map_get before (VStr n)) field) /\
  (OMap.has value_eqb before (VStr n) = false ->
   after = before ++ [(VStr n, it)]) /\
  (OMap.has value_eqb before (VStr n) = true ->
   OMap.keys after = OMap.keys before) /\
  (forall k, k <> VStr n ->
     OMap.get value_eqb after k = OMap.get value_eqb before k) /\
  (Forall (fun x => get_prop x "name" <> VStr n) inc2 ->
   map_get final (VStr n) = map_get after (VStr n)) /\
  nextItems base (inc1 ++ it :: inc2) = OMap.values final /\
  nextState
    (cart_of [VObj [("name", VStr "Margherita"); ("quantity", VNum 2);
                    ("price", VNum 10)]])
    [item "Margherita" 5] =
    cart_of [VObj [("name", VStr "Margherita"); ("quantity", VNum 5);
                   ("price", VNum 10)]] /\
  nextItems [] [item "X" 1; item "X" 3] = [item "X" 3].
Proof.
  intros Hwf Hname Hn before after final.
  destruct (named_is_object it (VStr n) Hname (truthy_name n Hn)) as [ps ->].
  assert (Hnd : NoDup (OMap.keys ps)) by now apply well_formed_props.
  assert (Hafter : after = OMap.set value_eqb before (VStr n)
                     (VObj (spread (own_props (map_get before (VStr n))) (VObj ps)))).
  { unfold after. now apply overlay_named. }
  repeat split.
  - intros field. rewrite Hafter. unfold map_get at 1.
    rewrite (OMapFacts.get_set_same value_eqb value_eqb_eq).
    now rewrite get_prop_spread.
  - intros Habs. rewrite Hafter.
    rewrite OMapFacts.set_absent by assumption.
    unfold map_get, OMap.has in *.
    destruct (OMap.get value_eqb before (VStr n)); [discriminate|].
    unfold spread. simpl own_props.
    now rewrite (OMapFacts.set_all_fresh String.eqb string_eqb_eq).
  - intros Hpres. rewrite Hafter.
    now apply OMapFacts.keys_set_present.
  - intros k Hk. unfold after. apply overlay_other. congruence.
  - intros Hlater. unfold final, map_get.
    rewrite itemsByName_app. simpl fold_left.
    now rewrite overlay_all_other.
Qed.

Lemma merge_overlay_witness :
  let base := [VObj [("name", VStr "X"); ("note", VStr "thin")]; item "W" 1] in
  well_formed (item "X" 3) = true /\
  get_prop (map_get (overlay_item (itemsByName base [item "X" 1]) (item "X" 3))
              (VStr "X")) "quantity" =
  if has_prop (item "X" 3) "quantity" then get_prop (item "X" 3) "quantity"
  else get_prop (map_get (itemsByName base [item "X" 1]) (VStr "X")) "quantity".
Proof.
  split; [reflexivity|].
  refine (proj1 (merge_overlay
            [VObj [("name", VStr "X"); ("note", VStr "thin")]; item "W" 1]
            [item "X" 1] (item "X" 3) [] "X" eq_refl eq_refl _) "quantity").
  discriminate.
Defined.

(** *** Quantities stay non-negative *)

Lemma committed_cases toolInput toolOutput widgetState cartState last :
  let r := merge_effect toolInput toolOutput widgetState cartState last in
  committed r = None \/
  committed r = Some (mergedState toolInput widgetState cartState).
Proof.
  unfold merge_effect.
  destruct (nullish toolInput && nullish toolOutput && nullish widgetState);
    [now left|].
  destruct (JSON_stringify (mergedState toolInput widgetState cartState));
    [|now left].
  destruct (negb (shouldForceSyncFromResponse widgetState toolOutput)
            && jstr_eqb a last); [now left|].
  destruct (shouldForceSyncFromResponse widgetState toolOutput); [now right|].
  destruct (widgetStateEqual _ cartState) as [[|]|]; simpl; auto.
Qed.

Lemma cartItems_nextState baseState incoming :
  cartItems (nextState baseState incoming) =
  nextItems (baseItems baseState) incoming.
Proof.
  unfold cartItems, nextState. now read_written.
Qed.

Lemma index_item_ok m it :
  values_ok m -> quantity_ok it = true -> values_ok (index_item m it).
Proof.
  intros Hm Hit. unfold index_item.
  destruct (truthy (get_prop it "name")); [|assumption].
  now apply (OMapFacts.Forall_set value_eqb value_eqb_eq).
Qed.

Lemma quantity_ok_has it : quantity_ok it = true -> has_prop it "quantity" = true.
Proof.
  unfold quantity_ok, has_prop, get_prop, obj_get, OMap.has.
  now destruct (OMap.get String.eqb (own_props it) "quantity").
Qed.

Lemma overlay_item_ok m it :
  values_ok m -> quantity_ok it = true -> well_formed it = true ->
  values_ok (overlay_item m it).
Proof.
  intros Hm Hit Hwf. unfold overlay_item.
  destruct (truthy (get_prop it "name")) eqn:Ht; [|assumption].
  destruct (named_is_object it _ eq_refl Ht) as [ps ->].
  apply (OMapFacts.Forall_set value_eqb value_eqb_eq); [assumption|].
  simpl snd. unfold quantity_ok.
  rewrite get_prop_spread by now apply well_formed_props.
  now rewrite quantity_ok_has.
Qed.

Lemma nextItems_ok base incoming :
  Forall (fun it => quantity_ok it = true) base ->
  Forall (fun it => quantity_ok it = true /\ well_formed it = true) incoming ->
  Forall (fun it => quantity_ok it = true) (nextItems base incoming).
Proof.
  intros Hb Hi. unfold nextItems, OMap.values, itemsByName.
  apply Forall_map.
  assert (Hidx : values_ok (fold_left index_item base [])).
  { generalize (Forall_nil (fun kv : value * value => quantity_ok (snd kv) = true)).
    generalize (@nil (value * value)).
    induction Hb as [|x l Hx _ IH]; intros m Hm; simpl; [assumption|].
    apply IH. now apply index_item_ok. }
  revert Hidx. generalize (fold_left index_item base []).
  induction Hi as [|x l [Hx Hw] _ IH]; intros m Hm; simpl; [assumption|].
  apply IH. now apply overlay_item_ok.
Qed.

Lemma incomingItems_well_formed toolInput :
  well_formed toolInput = true ->
  Forall (fun it => well_formed it = true) (incomingItems toolInput).
Proof.
  intros H. apply (well_formed_get_prop _ "items") in H.
  unfold incomingItems. destruct (get_prop toolInput "items"); try constructor.
  simpl in *. apply Forall_forall. now apply forallb_forall.
Qed.

Lemma mergeBase_ok widgetState cartState :
  quantities_ok widgetState = true -> quantities_ok cartState = true ->
  quantities_ok (mergeBase widgetState cartState) = true.
Proof.
  intros Hw Hc. unfold mergeBase, coalesce.
  destruct (truthy widgetState && typeof_object widgetState); [assumption|].
  now destruct (nullish cartState).
Qed.

Lemma mergedState_ok toolInput widgetState cartState :
  well_formed toolInput = true ->
  forallb quantity_ok (incomingItems toolInput) = true ->
  quantities_ok widgetState = true -> quantities_ok cartState = true ->
  quantities_ok (mergedState toolInput widgetState cartState) = true.
Proof.
  intros Hwf Hin Hw Hc. unfold quantities_ok, mergedState.
  rewrite cartItems_nextState. apply forallb_forall. apply Forall_forall.
  apply nextItems_ok.
  - apply Forall_forall. apply forallb_forall.
    now apply (mergeBase_ok widgetState cartState).
  - apply incomingItems_well_formed in Hwf.
    rewrite forallb_forall in Hin. rewrite Forall_forall in *.
    intros x Hx. split; auto.
Qed.

Lemma run_merge_ok toolInput toolOutput widgetState e :
  admissible (Merge toolInput toolOutput widgetState) = true ->
  quantities_ok (cartState e) = true ->
  quantities_ok (cartState (run_merge toolInput toolOutput widgetState e)) = true.
Proof.
  simpl. intros Ha He.
  apply andb_true_iff in Ha. destruct Ha as [Ha Hw].
  apply andb_true_iff in Ha. destruct Ha as [Hwf Hin].
  unfold run_merge. simpl.
  destruct (committed_cases toolInput toolOutput widgetState (cartState e)
              (lastMergedStateRef e)) as [-> | ->]; simpl; [assumption|].
  now apply mergedState_ok.
Qed.

Lemma findIndex_Some p l idx :
  findIndex p l = Some idx ->
  exists pre cur post,
    l = pre ++ cur :: post /\ List.length pre = idx /\ p cur = true.
Proof.
  revert idx. induction l as [|x l IH]; simpl; intros idx; [discriminate|].
  destruct (p x) eqn:E.
  - intros H. inversion H. exists [], x, l. auto.
  - destruct (findIndex p l) as [i|]; simpl; [|discriminate].
    intros H. inversion H.
    destruct (IH i eq_refl) as (pre & cur & post & -> & <- & Hc).
    exists (x :: pre), cur, post. auto.
Qed.

Lemma splice1_middle pre cur post :
  splice1 (List.length pre) (pre ++ cur :: post) = pre ++ post.
Proof.
  unfold splice1.
  rewrite firstn_app, firstn_all, Nat.sub_diag, skipn_app.
  rewrite skipn_all2 by lia.
  replace (S (List.length pre) - List.length pre)%nat with 1%nat by lia.
  simpl. now rewrite app_nil_r.
Qed.

Lemma assign_middle v pre cur post :
  assign (List.length pre) v (pre ++ cur :: post) = pre ++ v :: post.
Proof.
  unfold assign.
  rewrite firstn_app, firstn_all, Nat.sub_diag, skipn_app.
  rewrite skipn_all2 by lia.
  replace (S (List.length pre) - List.length pre)%nat with 1%nat by lia.
  simpl. now rewrite app_nil_r.
Qed.

Lemma copied_items baseState :
  match get_prop baseState "items" with
  | VArr xs => map shallow_copy xs
  | _ => []
  end = map shallow_copy (cartItems baseState).
Proof. unfold cartItems. now destruct (get_prop baseState "items"). Qed.

Lemma updater_ok name delta st :
  quantities_ok st = true ->
  exists next,
    adjustQuantity_updater name delta st = Some next /\
    quantities_ok next = true.
Proof.
  intros Hst. unfold adjustQuantity_updater.
  assert (Hbase : quantities_ok (coalesce st (VObj [])) = true).
  { unfold coalesce. now destruct (nullish st). }
  rewrite copied_items.
  remember (coalesce st (VObj [])) as baseState eqn:Eb. clear Eb Hst st.
  assert (Hitems : Forall (fun it => quantity_ok it = true)
                     (map shallow_copy (cartItems baseState))).
  { apply Forall_map. apply Forall_forall. intros x Hx.
    change (quantity_ok (shallow_copy x)) with (quantity_ok x).
    unfold quantities_ok in Hbase. rewrite forallb_forall in Hbase. auto. }
  destruct (findIndex _ (map shallow_copy (cartItems baseState))) as [idx|] eqn:F.
  - apply findIndex_Some in F. destruct F as (pre & cur & post & E & <- & _).
    rewrite E in *. rewrite nth_middle.
    apply Forall_app in Hitems. destruct Hitems as [Hpre Hrest].
    inversion Hrest as [|? ? Hcur Hpost]; subst.
    unfold quantity_ok in Hcur.
    destruct (get_prop cur "quantity") as [| |b|q|q|s|xs|ps] eqn:Q;
      try discriminate.
    simpl. eexists. split; [reflexivity|].
    unfold quantities_ok. rewrite forallb_forall.
    unfold cartItems. read_written. simpl.
    apply Forall_forall.
    destruct (Z.max 0 (q + delta) =? 0).
    + rewrite splice1_middle. apply Forall_app. auto.
    + rewrite assign_middle. apply Forall_app. split; [assumption|].
      constructor; [|assumption].
      unfold quantity_ok. read_written.
      apply Z.leb_le. lia.
  - eexists. split; [reflexivity|assumption].
Qed.

Lemma run_edit_ok name delta e :
  quantities_ok (cartState e) = true ->
  exists e', run_edit name delta e = Some e' /\
             quantities_ok (cartState e') = true.
Proof.
  intros He. unfold run_edit, adjustQuantity.
  destruct (negb (truthy (VStr name)) || (delta =? 0)); simpl.
  - eexists. split; [reflexivity|assumption].
  - destruct (updater_ok name delta (cartState e) He) as (next & -> & Hn).
    simpl. eexists. split; [reflexivity|assumption].
Qed.

Lemma run_ok evs e :
  forallb admissible evs = true -> quantities_ok (cartState e) = true ->
  exists e', run evs e = Some e' /\ quantities_ok (cartState e') = true.
Proof.
  revert e. induction evs as [|ev evs IH]; intros e Ha He; simpl.
  - eexists. split; [reflexivity|assumption].
  - simpl in Ha. apply andb_true_iff in Ha. destruct Ha as [Hev Ha].
    destruct ev as [ti to ws|name delta]; simpl.
    + apply IH; [assumption|]. now apply run_merge_ok.
    + destruct (run_edit_ok name delta e He) as (e1 & -> & H1).
      now apply IH.
Qed.

(** C7. From an initial host state whose quantities are not negative,
    every history of merges and local edits, in which each [toolInput]
    satisfies the wire contract and each [widgetState] is a collection
    state, runs to the end and leaves a cart state in which the
    quantity of every item is a number that is not negative. *)
Theorem quantity_invariant widgetState evs :
  quantities_ok widgetState = true -> forallb admissible evs = true ->
  exists e,
    run evs (initial widgetState) = Some e /\
    quantities_ok (cartState e) = true /\
    Forall (fun it => exists q, get_prop it "quantity" = VNum q /\ 0 <= q)
           (cartItems (cartState e)).
Proof.
  intros Hw Ha.
  destruct (run_ok evs (initial widgetState) Ha) as (e & Hrun & He).
  - simpl. unfold initialCartState.
    now destruct (truthy widgetState && typeof_object widgetState).
  - exists e. repeat split; try assumption.
    unfold quantities_ok in He. rewrite forallb_forall in He.
    apply Forall_forall. intros it Hit. specialize (He it Hit).
    unfold quantity_ok in He.
    destruct (get_prop it "quantity"); try discriminate.
    eexists. split; [reflexivity|]. now apply Z.leb_le.
Qed.

Lemma quantity_invariant_witness :
  exists e,
    run [Merge (cart_of [item "A" 1; item "B" 2]) VNull VNull;
         Edit "A" (-1); Edit "B" 1;
         Merge (cart_of [item "A" 4]) (VStr "done") VNull]
        (initial VNull) = Some e /\
    quantities_ok (cartState e) = true /\
    Forall (fun it => exists q, get_prop it "quantity" = VNum q /\ 0 <= q)
           (cartItems (cartState e)).
Proof.
  apply (quantity_invariant VNull
           [Merge (cart_of [item "A" 1; item "B" 2]) VNull VNull;
            Edit "A" (-1); Edit "B" 1;
            Merge (cart_of [item "A" 4]) (VStr "done") VNull]);
    reflexivity.
Defined.

(** *** Running the merge twice *)

Lemma jstr_eqb_refl s : jstr_eqb s s = true.
Proof. destruct s; simpl; [apply String.eqb_refl|reflexivity]. Qed.


Lemma truthy_has_name it :
  truthy (get_prop it "name") = true -> has_prop it "name" = true.
Proof.
  unfold get_prop, has_prop, obj_get, OMap.has.
  now destruct (OMap.get String.eqb (own_props it) "name").
Qed.

Lemma index_item_named m it : named_map m -> named_map (index_item m it).
Proof.
  intros [Hnd Hm]. unfold index_item.
  destruct (truthy (get_prop it "name")) eqn:Ht; [|now split].
  split.
  - now apply (OMapFacts.NoDup_keys_set value_eqb value_eqb_eq).
  - apply (OMapFacts.Forall_set value_eqb value_eqb_eq); [assumption|].
    now split.
Qed.

Lemma overlay_item_named m it :
  well_formed it = true -> named_map m -> named_map (overlay_item m it).
Proof.
  intros Hwf [Hnd Hm]. unfold overlay_item.
  destruct (truthy (get_prop it "name")) eqn:Ht; [|now split].
  split.
  - now apply (OMapFacts.NoDup_keys_set value_eqb value_eqb_eq).
  - apply (OMapFacts.Forall_set value_eqb value_eqb_eq); [assumption|].
    split; [assumption|]. simpl snd. simpl fst.
    destruct (named_is_object it _ eq_refl Ht) as [ps ->].
    rewrite get_prop_spread by now apply well_formed_props.
    now rewrite truthy_has_name.
Qed.

Lemma itemsByName_named base incoming :
  Forall (fun it => well_formed it = true) incoming ->
  named_map (itemsByName base incoming).
Proof.
  intros Hi. unfold itemsByName.
  assert (Hidx : named_map (fold_left index_item base [])).
  { assert (H0 : named_map []) by (split; constructor).
    revert H0. generalize (@nil (value * value)).
    induction base as [|x l IH]; intros m Hm; simpl; [assumption|].
    apply IH. now apply index_item_named. }
  revert Hidx. generalize (fold_left index_item base []).
  induction Hi as [|x l Hx _ IH]; intros m Hm; simpl; [assumption|].
  apply IH. now apply overlay_item_named.
Qed.

(** Indexing the values of a map in which every entry sits under its
    own name rebuilds the map. *)
Lemma reindex m1 m2 :
  named_map (m1 ++ m2) ->
  fold_left index_item (OMap.values m2) m1 = m1 ++ m2.
Proof.
  revert m1. induction m2 as [|[k v] m2 IH]; intros m1 H; simpl.
  - now rewrite app_nil_r.
  - destruct H as [Hnd Hall].
    assert (Hkv : truthy k = true /\ get_prop v "name" = k).
    { rewrite Forall_forall in Hall. apply (Hall (k, v)).
      apply in_or_app. right. now left. }
    destruct Hkv as [Ht Hname].
    unfold index_item at 2. rewrite Hname, Ht.
    rewrite OMapFacts.set_absent.
    + rewrite IH; rewrite <- app_assoc; simpl; [reflexivity|now split].
    + destruct (OMap.has value_eqb m1 k) eqn:E; [|reflexivity].
      apply (OMapFacts.has_In value_eqb value_eqb_eq) in E.
      unfold OMap.keys in *. rewrite map_app in Hnd. simpl in Hnd.
      apply NoDup_remove_2 in Hnd. exfalso. apply Hnd.
      apply in_or_app. now left.
Qed.

Lemma named_eq k it : named k it = true -> get_prop it "name" = k.
Proof.
  unfold named. intros H. apply andb_true_iff in H.
  now apply value_eqb_eq.
Qed.

Lemma get_overlay_item m it k :
  OMap.get value_eqb (overlay_item m it) k =
  if named k it then
    Some (VObj (OMap.set_all String.eqb (own_props (map_get m k)) (own_props it)))
  else OMap.get value_eqb m k.
Proof.
  destruct (named k it) eqn:N.
  - pose proof (named_eq k it N) as Hk.
    unfold named in N. apply andb_true_iff in N. destruct N as [Ht _].
    unfold overlay_item. rewrite Ht, Hk.
    now rewrite (OMapFacts.get_set_same value_eqb value_eqb_eq).
  - unfold overlay_item, named in *.
    destruct (truthy (get_prop it "name")); [|reflexivity].
    simpl in N. apply (OMapFacts.get_set_other value_eqb value_eqb_eq).
    intros H. apply value_eqb_eq in H. congruence.
Qed.

Lemma assignments_none k incoming :
  existsb (named k) incoming = false -> assignments k incoming = [].
Proof.
  unfold assignments. induction incoming as [|x l IH]; simpl; [reflexivity|].
  destruct (named k x); simpl; [discriminate|assumption].
Qed.

(** The entry under [k] after the second loop: the existing entry with
    the assignments of all incoming items of that name, or the existing
    entry as it is when there is none. *)
Lemma get_overlay_all incoming m k :
  OMap.get value_eqb (fold_left overlay_item incoming m) k =
  if existsb (named k) incoming then
    Some (VObj (OMap.set_all String.eqb (own_props (map_get m k))
                  (assignments k incoming)))
  else OMap.get value_eqb m k.
Proof.
  revert m. induction incoming as [|it l IH]; intros m; simpl; [reflexivity|].
  rewrite IH. unfold map_get at 1. rewrite get_overlay_item.
  unfold assignments. simpl filter.
  destruct (named k it) eqn:N; simpl.
  - fold (assignments k l).
    destruct (existsb (named k) l) eqn:E.
    + now rewrite OMapFacts.set_all_app.
    + rewrite assignments_none by assumption. now rewrite app_nil_r.
  - reflexivity.
Qed.

Lemma has_overlay_item m it k :
  OMap.has value_eqb m k = true ->
  OMap.has value_eqb (overlay_item m it) k = true.
Proof.
  unfold OMap.has. rewrite get_overlay_item.
  now destruct (named k it).
Qed.

Lemma keys_overlay_all incoming m :
  Forall (fun it => truthy (get_prop it "name") = true ->
                    OMap.has value_eqb m (get_prop it "name") = true) incoming ->
  OMap.keys (fold_left overlay_item incoming m) = OMap.keys m.
Proof.
  intros H. revert m H. induction incoming as [|it l IH]; intros m H; simpl.
  - reflexivity.
  - inversion H as [|? ? Hit Hl]; subst. rewrite IH.
    + unfold overlay_item.
      destruct (truthy (get_prop it "name")) eqn:Ht; [|reflexivity].
      apply OMapFacts.keys_set_present. now apply Hit.
    + revert Hl. apply Forall_impl. intros x Hx Ht.
      apply has_overlay_item. now apply Hx.
Qed.

Lemma NoDup_overlay_all incoming m :
  NoDup (OMap.keys m) -> NoDup (OMap.keys (fold_left overlay_item incoming m)).
Proof.
  revert m. induction incoming as [|it l IH]; intros m H; simpl; [assumption|].
  apply IH. unfold overlay_item.
  destruct (truthy (get_prop it "name")); [|assumption].
  now apply (OMapFacts.NoDup_keys_set value_eqb value_eqb_eq).
Qed.

Lemma named_self it :
  truthy (get_prop it "name") = true -> named (get_prop it "name") it = true.
Proof.
  intros Ht. unfold named. rewrite Ht. simpl. now apply value_eqb_eq.
Qed.

(** Running the second loop again over the same items changes nothing. *)
Lemma overlay_all_idem incoming m :
  NoDup (OMap.keys m) ->
  fold_left overlay_item incoming (fold_left overlay_item incoming m) =
  fold_left overlay_item incoming m.
Proof.
  intros Hnd. apply (OMapFacts.ext_NoDup value_eqb value_eqb_eq).
  - apply keys_overlay_all. apply Forall_forall. intros it Hin Ht.
    unfold OMap.has. rewrite get_overlay_all.
    assert (E : existsb (named (get_prop it "name")) incoming = true).
    { apply existsb_exists. exists it. split; [assumption|now apply named_self]. }
    now rewrite E.
  - apply NoDup_overlay_all. now apply NoDup_overlay_all.
  - intros k. rewrite get_overlay_all.
    destruct (existsb (named k) incoming) eqn:E; [|reflexivity].
    unfold map_get. rewrite !get_overlay_all, E. simpl own_props.
    now rewrite (OMapFacts.set_all_idem String.eqb string_eqb_eq).
Qed.

Lemma nextItems_idem base incoming :
  Forall (fun it => well_formed it = true) incoming ->
  nextItems (nextItems base incoming) incoming = nextItems base incoming.
Proof.
  intros Hwf. unfold nextItems at 1. unfold itemsByName at 1.
  unfold nextItems.
  pose proof (itemsByName_named base incoming Hwf) as Hn.
  rewrite (reindex [] (itemsByName base incoming)) by assumption.
  simpl app. unfold itemsByName at 1.
  rewrite overlay_all_idem; [reflexivity|].
  clear. generalize (NoDup_nil value).
  change (@nil value) with (OMap.keys (@nil (value * value))).
  generalize (@nil (value * value)).
  induction base as [|x l IH]; intros m Hm; simpl; [assumption|].
  apply IH. unfold index_item.
  destruct (truthy (get_prop x "name")); [|assumption].
  now apply (OMapFacts.NoDup_keys_set value_eqb value_eqb_eq).
Qed.

Lemma nextState_idem baseState incoming :
  Forall (fun it => well_formed it = true) incoming ->
  nextState (nextState baseState incoming) incoming = nextState baseState incoming.
Proof.
  intros Hwf. unfold nextState at 1.
  change (baseItems (nextState baseState incoming))
    with (cartItems (nextState baseState incoming)).
  rewrite cartItems_nextState, nextItems_idem by assumption.
  unfold nextState, obj_set. simpl own_props.
  now rewrite (OMapFacts.set_set_same String.eqb string_eqb_eq).
Qed.







End CartFacts.

(** ** Serialisation and the comparison built on it *)

Module SerializeFacts.
Import JS Cart Panel JSFacts.
Local Open Scope list_scope.

Lemma mapM_throw {A B : Type} (f : A -> outcome B) (l : list A) :
  Exists (fun x => f x = Throw) l -> mapM f l = Throw.
Proof.
  induction 1 as [x l Hx|x l _ IH]; simpl.
  - now rewrite Hx.
  - destruct (f x); simpl; [|reflexivity]. now rewrite IH.
Qed.

Lemma mapM_app {A B : Type} (f : A -> outcome B) (l1 l2 : list A) :
  mapM f (l1 ++ l2) =
  bind (mapM f l1) (fun ys1 => bind (mapM f l2) (fun ys2 => Ret (ys1 ++ ys2))).
Proof.
  induction l1 as [|x l1 IH]; simpl.
  - now destruct (mapM f l2).
  - destruct (f x); simpl; [|reflexivity]. rewrite IH.
    destruct (mapM f l1); simpl; [|reflexivity].
    now destruct (mapM f l2).
Qed.

Lemma forallb_false_Exists {A : Type} (p : A -> bool) (l : list A) :
  forallb p l = false -> Exists (fun x => p x = false) l.
Proof.
  induction l as [|x l IH]; simpl; [discriminate|].
  destruct (p x) eqn:E; simpl; intros H.
  - right. now apply IH.
  - now left.
Qed.

(** With a [BigInt] inside, [JSON.stringify] throws. *)
Lemma stringify_throws v : bigint_free v = false -> JSON_stringify v = Throw.
Proof.
  induction v as [| |x|x|x|x|xs IH|ps IH] using value_induction; simpl;
    try discriminate; try reflexivity.
  - intros H. apply forallb_false_Exists in H.
    rewrite mapM_throw; [reflexivity|].
    rewrite Forall_forall in IH. rewrite Exists_exists in *.
    destruct H as (x & Hin & Hx). exists x. auto.
  - intros H. apply forallb_false_Exists in H.
    rewrite mapM_throw; [reflexivity|].
    rewrite Forall_forall in IH. rewrite Exists_exists in *.
    destruct H as (kv & Hin & Hx). exists kv. split; [assumption|].
    now rewrite (IH kv Hin Hx).
Qed.

Lemma stringify_throw_iff v : JSON_stringify v = Throw <-> bigint_free v = false.
Proof.
  split; [|apply stringify_throws].
  destruct (bigint_free v) eqn:E; [|reflexivity].
  destruct (stringify_bigint_free v E) as [o ->]. discriminate.
Qed.

Lemma pretty_throws v stepback :
  bigint_free v = false -> JSON_pretty v stepback = Throw.
Proof.
  revert stepback.
  induction v as [| |x|x|x|x|xs IH|ps IH] using value_induction; intros stepback;
    simpl; try discriminate; try reflexivity.
  - intros H. apply forallb_false_Exists in H.
    rewrite mapM_throw; [reflexivity|].
    rewrite Forall_forall in IH. rewrite Exists_exists in *.
    destruct H as (x & Hin & Hx). exists x. auto.
  - intros H. apply forallb_false_Exists in H.
    rewrite mapM_throw; [reflexivity|].
    rewrite Forall_forall in IH. rewrite Exists_exists in *.
    destruct H as (kv & Hin & Hx). exists kv. split; [assumption|].
    now rewrite (IH kv Hin _ Hx).
Qed.

Lemma pretty_returns v stepback :
  bigint_free v = true -> exists o, JSON_pretty v stepback = Ret o.
Proof.
  revert stepback.
  induction v as [| |x|x|x|x|xs IH|ps IH] using value_induction; intros stepback;
    simpl; try (intros _; eexists; reflexivity); try discriminate.
  - intros H. rewrite forallb_forall in H. rewrite Forall_forall in IH.
    destruct (mapM_total (fun x => JSON_pretty x (stepback ++ gap)%string) xs) as [l ->].
    + apply Forall_forall. intros x Hx. apply IH; auto.
    + eexists. reflexivity.
  - intros H. rewrite forallb_forall in H. rewrite Forall_forall in IH.
    destruct (mapM_total
                (fun kv => bind (JSON_pretty (snd kv) (stepback ++ gap)%string)
                             (fun o => Ret (fst kv, o))) ps) as [l ->].
    + apply Forall_forall. intros kv Hkv.
      destruct (IH kv Hkv (stepback ++ gap)%string (H kv Hkv)) as [o ->].
      eexists. reflexivity.
    + eexists. reflexivity.
Qed.

(** Only [undefined] itself is printed as [undefined]. *)
Lemma pretty_none v stepback :
  JSON_pretty v stepback = Ret None -> v = VUndefined.
Proof.
  destruct v; simpl; try discriminate; [reflexivity| |].
  - destruct (mapM _ elems); simpl; discriminate.
  - destruct (mapM _ props); simpl; discriminate.
Qed.

(** X1. [usePrettyJson] always yields a text: [null] for [null] and
    [undefined], the fallback text when the value holds a [BigInt]
    (where [JSON.stringify] throws), and the indented JSON text
    otherwise. *)
Theorem usePrettyJson_always_text (error_text : string) (v : value) :
  exists text,
    usePrettyJson error_text v = Some text /\
    (nullish v = true -> text = "null"%string) /\
    (nullish v = false -> bigint_free v = false ->
     text = ("<<unable to render: " ++ error_text ++ ">>")%string) /\
    (nullish v = false -> bigint_free v = true ->
     JSON_pretty v EmptyString = Ret (Some text)).
Proof.
  unfold usePrettyJson. destruct (nullish v) eqn:N.
  - eexists. repeat split; try reflexivity; discriminate.
  - destruct (bigint_free v) eqn:B.
    + destruct (pretty_returns v EmptyString B) as [[s|] E].
      * rewrite E. exists s. repeat split; try reflexivity; discriminate.
      * apply pretty_none in E. subst v. discriminate.
    + rewrite pretty_throws by assumption.
      eexists. repeat split; try reflexivity; discriminate.
Qed.

Lemma jstr_eqb_sym a b : jstr_eqb a b = jstr_eqb b a.
Proof. destruct a, b; simpl; try reflexivity. apply String.eqb_sym. Qed.

(** X2. [widgetStateEqual] is symmetric, exceptions included. *)
Theorem widgetStateEqual_sym (a b : value) :
  widgetStateEqual a b = widgetStateEqual b a.
Proof.
  unfold widgetStateEqual.
  destruct (nullish a), (nullish b); simpl; try reflexivity.
  destruct (JSON_stringify a), (JSON_stringify b); simpl; try reflexivity.
  now rewrite jstr_eqb_sym.
Qed.

(** X3. [null] and [undefined] are equal to each other and to nothing
    else, and comparing with them serialises nothing; two values that
    are not nullish are compared by their serialisations, which throws
    exactly when one of them holds a [BigInt]; a value without
    [BigInt] is equal to itself. *)
Theorem widgetStateEqual_cases (a b : value) :
  (nullish a = true -> widgetStateEqual a b = Ret (nullish b)) /\
  (nullish a = false -> nullish b = false ->
   (widgetStateEqual a b = Throw <->
    bigint_free a = false \/ bigint_free b = false)) /\
  (bigint_free a = true -> widgetStateEqual a a = Ret true).
Proof.
  unfold widgetStateEqual. split; [|split].
  - intros ->. simpl. now destruct (nullish b).
  - intros Na Nb. rewrite Na, Nb. simpl. split.
    + intros H1.
      destruct (bigint_free a) eqn:Ba; [|now left].
      destruct (bigint_free b) eqn:Bb; [|now right].
      destruct (stringify_bigint_free a Ba) as [sa Ea].
      destruct (stringify_bigint_free b Bb) as [sb Eb].
      rewrite Ea, Eb in H1. discriminate.
    + intros [Ha|Hb].
      * now rewrite stringify_throws.
      * destruct (JSON_stringify a); simpl; [|reflexivity].
        now rewrite stringify_throws.
  - intros Ba. destruct (nullish a); simpl; [reflexivity|].
    destruct (stringify_bigint_free a Ba) as [sa ->]. simpl.
    now rewrite CartFacts.jstr_eqb_refl.
Qed.

(** X4. A property whose value is [undefined] is invisible to the
    comparison: a state with such a property, wherever it stands,
    compares with any other value as the state without it does. *)
Theorem undefined_property_invisible ps1 ps2 k (other : value) :
  JSON_stringify (VObj (ps1 ++ (k, VUndefined) :: ps2)) =
    JSON_stringify (VObj (ps1 ++ ps2)) /\
  widgetStateEqual (VObj (ps1 ++ (k, VUndefined) :: ps2)) other =
    widgetStateEqual (VObj (ps1 ++ ps2)) other.
Proof.
  assert (E : JSON_stringify (VObj (ps1 ++ (k, VUndefined) :: ps2)) =
              JSON_stringify (VObj (ps1 ++ ps2))).
  { simpl. rewrite !mapM_app. simpl.
    destruct (mapM _ ps1) as [l1|]; simpl; [|reflexivity].
    destruct (mapM _ ps2) as [l2|]; simpl; [|reflexivity].
    replace (members (l1 ++ (k, None) :: l2)) with (members (l1 ++ l2));
      [reflexivity|].
    clear. induction l1 as [|[k1 [s|]] l1 IH]; simpl; congruence. }
  split; [exact E|].
  unfold widgetStateEqual. simpl nullish. cbv iota. simpl andb. simpl orb.
  destruct (nullish other); [reflexivity|]. now rewrite E.
Qed.

End SerializeFacts.

(** ** More on the merge effect *)

Module MergeFacts.
Import JS Cart JSFacts CartFacts SerializeFacts.
Local Open Scope list_scope.

Lemma get_in_values {K V : Type} (eqb : K -> K -> bool) (m : list (K * V)) k v :
  OMap.get eqb m k = Some v -> In v (OMap.values m).
Proof.
  unfold OMap.values. induction m as [|[k0 v0] m IH]; simpl; [discriminate|].
  destruct (eqb k0 k); intros H; [inversion H; now left|right; auto].
Qed.

(** *** Values without [BigInt] *)

Lemma clean_own_props v : bigint_free v = true -> clean (own_props v).
Proof.
  unfold clean. destruct v as [| |b|n|n|s|xs|ps]; simpl; try constructor.
  - intros _. apply (Forall_indexed (fun x => bigint_free x = true)).
    induction s; simpl; constructor; auto.
  - intros H. apply (Forall_indexed (fun x => bigint_free x = true)).
    apply Forall_forall. now apply forallb_forall.
  - intros H. rewrite forallb_forall in H. apply Forall_forall. exact H.
Qed.

Lemma clean_obj ps : clean ps -> bigint_free (VObj ps) = true.
Proof.
  unfold clean. intros H. simpl. apply forallb_forall.
  now apply Forall_forall.
Qed.

Lemma clean_get_prop v k : bigint_free v = true -> bigint_free (get_prop v k) = true.
Proof.
  intros H. apply clean_own_props in H.
  unfold get_prop, obj_get. induction H as [|[k0 v0] ps H0 _ IH]; simpl.
  - reflexivity.
  - destruct (String.eqb k0 k); assumption.
Qed.

Lemma clean_set ps k v :
  clean ps -> bigint_free v = true -> clean (obj_set ps k v).
Proof.
  intros Hps Hv. now apply (OMapFacts.Forall_set String.eqb string_eqb_eq).
Qed.

Lemma clean_spread ps b : clean ps -> bigint_free b = true -> clean (spread ps b).
Proof.
  intros Hps Hb. apply clean_own_props in Hb. unfold spread, OMap.set_all.
  revert ps Hps. induction Hb as [|[k v] ops Hv _ IH]; intros ps Hps; simpl.
  - assumption.
  - apply IH. now apply clean_set.
Qed.

Lemma clean_array_or_empty v :
  bigint_free v = true -> Forall (fun x => bigint_free x = true) (array_or_empty v).
Proof.
  destruct v; simpl; try constructor.
  intros H. apply Forall_forall. now apply forallb_forall.
Qed.

Lemma clean_incomingItems toolInput :
  bigint_free toolInput = true ->
  Forall (fun x => bigint_free x = true) (incomingItems toolInput).
Proof.
  intros H. apply (clean_get_prop _ "items") in H.
  unfold incomingItems. destruct (get_prop toolInput "items"); try constructor.
  now apply (clean_array_or_empty (VArr elems)).
Qed.

Lemma clean_index_item (m : name_map) it :
  Forall (fun kv => bigint_free (snd kv) = true) m -> bigint_free it = true ->
  Forall (fun kv => bigint_free (snd kv) = true) (index_item m it).
Proof.
  intros Hm Hit. unfold index_item.
  destruct (truthy (get_prop it "name")); [|assumption].
  now apply (OMapFacts.Forall_set value_eqb value_eqb_eq).
Qed.

Lemma clean_map_get (m : name_map) k :
  Forall (fun kv => bigint_free (snd kv) = true) m ->
  bigint_free (map_get m k) = true.
Proof.
  intros Hm. unfold map_get.
  destruct (OMap.get value_eqb m k) as [v|] eqn:E; [|reflexivity].
  apply get_in_values in E. unfold OMap.values in E.
  apply in_map_iff in E. destruct E as (kv & <- & Hin).
  rewrite Forall_forall in Hm. now apply Hm.
Qed.

Lemma clean_overlay_item (m : name_map) it :
  Forall (fun kv => bigint_free (snd kv) = true) m -> bigint_free it = true ->
  Forall (fun kv => bigint_free (snd kv) = true) (overlay_item m it).
Proof.
  intros Hm Hit. unfold overlay_item.
  destruct (truthy (get_prop it "name")); [|assumption].
  apply (OMapFacts.Forall_set value_eqb value_eqb_eq); [assumption|].
  simpl snd. apply clean_obj. apply clean_spread; [|assumption].
  apply clean_own_props. now apply clean_map_get.
Qed.

Lemma clean_nextItems base incoming :
  Forall (fun x => bigint_free x = true) base ->
  Forall (fun x => bigint_free x = true) incoming ->
  Forall (fun x => bigint_free x = true) (nextItems base incoming).
Proof.
  intros Hb Hi. unfold nextItems, OMap.values, itemsByName. apply Forall_map.
  assert (Hidx : Forall (fun kv => bigint_free (snd kv) = true)
                   (fold_left index_item base [])).
  { generalize (Forall_nil (fun kv : value * value => bigint_free (snd kv) = true)).
    generalize (@nil (value * value)).
    induction Hb as [|x l Hx _ IH]; intros m Hm; simpl; [assumption|].
    apply IH. now apply clean_index_item. }
  revert Hidx. generalize (fold_left index_item base []).
  induction Hi as [|x l Hx _ IH]; intros m Hm; simpl; [assumption|].
  apply IH. now apply clean_overlay_item.
Qed.

Lemma clean_mergedState toolInput widgetState cartState :
  bigint_free toolInput = true -> bigint_free widgetState = true ->
  bigint_free cartState = true ->
  bigint_free (mergedState toolInput widgetState cartState) = true.
Proof.
  intros Hi Hw Hc.
  assert (Hbase : bigint_free (mergeBase widgetState cartState) = true).
  { unfold mergeBase, coalesce.
    destruct (truthy widgetState && typeof_object widgetState); [assumption|].
    now destruct (nullish cartState). }
  unfold mergedState, nextState. apply clean_obj. apply clean_set.
  - now apply clean_own_props.
  - simpl. apply forallb_forall. apply Forall_forall. apply clean_nextItems.
    + apply clean_array_or_empty. now apply clean_get_prop.
    + now apply clean_incomingItems.
Qed.

(** X5. When [toolInput], [widgetState] and the cart state hold no
    [BigInt], a run of the merge effect does not end in an exception:
    both serialisations succeed, whatever the reference holds. *)
Theorem merge_effect_no_exception toolInput toolOutput widgetState cartState last :
  bigint_free toolInput = true -> bigint_free widgetState = true ->
  bigint_free cartState = true ->
  thrown (merge_effect toolInput toolOutput widgetState cartState last) = false.
Proof.
  intros Hi Hw Hc.
  pose proof (clean_mergedState _ _ _ Hi Hw Hc) as Hn.
  unfold merge_effect.
  destruct (nullish toolInput && nullish toolOutput && nullish widgetState);
    [reflexivity|].
  destruct (stringify_bigint_free _ Hn) as [s Hs]. rewrite Hs.
  destruct (negb (shouldForceSyncFromResponse widgetState toolOutput)
            && jstr_eqb s last); [reflexivity|].
  destruct (shouldForceSyncFromResponse widgetState toolOutput); [reflexivity|].
  unfold widgetStateEqual.
  destruct (nullish (mergedState toolInput widgetState cartState) && nullish cartState);
    [reflexivity|].
  destruct (nullish (mergedState toolInput widgetState cartState) || nullish cartState);
    [reflexivity|].
  rewrite Hs. destruct (stringify_bigint_free _ Hc) as [sc ->]. simpl.
  now destruct (jstr_eqb s sc).
Qed.

Lemma merge_effect_no_exception_witness :
  thrown (merge_effect (cart_of [item "A" 1]) VNull VNull empty_cart merge_unset)
  = false.
Proof.
  apply (merge_effect_no_exception (cart_of [item "A" 1]) VNull VNull empty_cart
           merge_unset); reflexivity.
Defined.

(** X6. The reference keeps holding a string: after a run it holds
    either what it held before or the serialisation of the state the
    run computed. *)
Theorem reference_stays_string toolInput toolOutput widgetState cartState s :
  let r := merge_effect toolInput toolOutput widgetState cartState (Some s) in
  (exists s', ref_after r = Some s') /\
  (ref_after r = Some s \/
   JSON_stringify (mergedState toolInput widgetState cartState) = Ret (ref_after r)).
Proof.
  unfold merge_effect.
  destruct (nullish toolInput && nullish toolOutput && nullish widgetState);
    [simpl; eauto|].
  destruct (JSON_stringify (mergedState toolInput widgetState cartState))
    as [o|] eqn:Hs; [|simpl; eauto].
  assert (Ho : exists s', o = Some s').
  { destruct o as [s'|]; [eauto|].
    unfold mergedState, nextState in Hs. now apply stringify_obj_some in Hs. }
  destruct Ho as [s' ->].
  destruct (negb (shouldForceSyncFromResponse widgetState toolOutput)
            && jstr_eqb (Some s') (Some s)); [simpl; eauto|].
  destruct (shouldForceSyncFromResponse widgetState toolOutput); [simpl; eauto|].
  destruct (widgetStateEqual _ cartState) as [[|]|]; simpl; eauto.
Qed.

(** *** The items of the merged state *)

Lemma get_in (m : name_map) k v :
  OMap.get value_eqb m k = Some v -> In (k, v) m.
Proof.
  induction m as [|[k0 v0] m IH]; simpl; [discriminate|].
  destruct (value_eqb k0 k) eqn:E; intros H.
  - apply value_eqb_eq in E. inversion H. subst. now left.
  - right. auto.
Qed.

Lemma names_values m : named_map m -> names (OMap.values m) = OMap.keys m.
Proof.
  intros [_ H]. unfold names, OMap.values, OMap.keys. rewrite map_map.
  apply map_ext_in. intros kv Hin. rewrite Forall_forall in H.
  now apply H.
Qed.

Lemma names_truthy m :
  named_map m -> Forall (fun k => truthy k = true) (OMap.keys m).
Proof.
  intros [_ H]. unfold OMap.keys. apply Forall_map.
  revert H. apply Forall_impl. now intros kv [Ht _].
Qed.

Lemma cartItems_mergedState toolInput widgetState cartState :
  get_prop (mergedState toolInput widgetState cartState) "items" =
  VArr (nextItems (baseItems (mergeBase widgetState cartState))
          (incomingItems toolInput)).
Proof. unfold mergedState, nextState. now read_written. Qed.

(** X7. The state the effect computes is a collection state as far as
    names go: its [items] field is an array, every item in it has a
    truthy name and no two items have the same name; and what the effect
    hands to [setCartState] is this state. *)
Theorem merged_names_distinct toolInput toolOutput widgetState cartState last :
  well_formed toolInput = true ->
  exists items,
    get_prop (mergedState toolInput widgetState cartState) "items" = VArr items /\
    NoDup (names items) /\
    Forall (fun k => truthy k = true) (names items) /\
    (forall v,
       committed (merge_effect toolInput toolOutput widgetState cartState last)
         = Some v ->
       get_prop v "items" = VArr items).
Proof.
  intros Hwf. apply incomingItems_well_formed in Hwf.
  pose proof (itemsByName_named
                (baseItems (mergeBase widgetState cartState)) _ Hwf) as Hn.
  eexists. split; [apply cartItems_mergedState|].
  unfold nextItems. rewrite names_values by assumption.
  split; [apply Hn|]. split; [now apply names_truthy|].
  intros v Hv.
  destruct (committed_cases toolInput toolOutput widgetState cartState last)
    as [H|H]; rewrite H in Hv; [discriminate|].
  inversion Hv. apply cartItems_mergedState.
Qed.

Lemma merged_names_distinct_witness :
  exists items,
    get_prop (mergedState (cart_of [item "A" 1; item "A" 2; item "B" 1]) VNull
                (cart_of [item "B" 7; VObj [("quantity", VNum 3)]]))
      "items" = VArr items /\
    NoDup (names items).
Proof.
  destruct (merged_names_distinct (cart_of [item "A" 1; item "A" 2; item "B" 1])
              VNull VNull (cart_of [item "B" 7; VObj [("quantity", VNum 3)]])
              merge_unset eq_refl) as (items & H1 & H2 & _).
  exists items. now split.
Defined.

Lemma names_entries base : OMap.keys (map entry_of base) = names base.
Proof. unfold OMap.keys, names. now rewrite map_map. Qed.

Lemma values_entries base : OMap.values (map entry_of base) = base.
Proof. unfold OMap.values. rewrite map_map. apply map_id. Qed.

(** The first loop on items of distinct truthy names makes one entry per
    item, in order. *)
Lemma index_distinct base :
  NoDup (names base) -> Forall (fun k => truthy k = true) (names base) ->
  fold_left index_item base [] = map entry_of base.
Proof.
  intros Hnd Ht.
  rewrite <- (values_entries base) at 1.
  apply (reindex [] (map entry_of base)). simpl app. split.
  - now rewrite names_entries.
  - apply Forall_map. unfold names in Ht. rewrite Forall_map in Ht.
    revert Ht. apply Forall_impl. intros it H. now split.
Qed.

Lemma nextItems_nothing base :
  NoDup (names base) -> Forall (fun k => truthy k = true) (names base) ->
  nextItems base [] = base.
Proof.
  intros Hnd Ht. unfold nextItems, itemsByName. simpl fold_left.
  rewrite index_distinct by assumption. apply values_entries.
Qed.

Lemma has_items_object st items :
  get_prop st "items" = VArr items ->
  exists ps, st = VObj ps /\ obj_get ps "items" = Some (VArr items).
Proof.
  intros H. destruct (get_prop_object st "items" (VArr items)) as [ps ->];
    [reflexivity|assumption|discriminate|].
  exists ps. split; [reflexivity|].
  unfold get_prop in H. simpl in H.
  now destruct (obj_get ps "items"); [subst|discriminate].
Qed.

(** X8. Without forced resync and without a host state, a [toolInput]
    that brings no items changes nothing: on a cart state whose items
    have distinct truthy names the effect computes the cart state
    itself and does not call [setCartState]. *)
Theorem nothing_incoming_nothing_published
    toolInput toolOutput widgetState st items last :
  incomingItems toolInput = [] ->
  truthy widgetState && typeof_object widgetState = false ->
  shouldForceSyncFromResponse widgetState toolOutput = false ->
  get_prop st "items" = VArr items ->
  NoDup (names items) -> Forall (fun k => truthy k = true) (names items) ->
  mergedState toolInput widgetState st = st /\
  committed (merge_effect toolInput toolOutput widgetState st last) = None.
Proof.
  intros Hin Hw Hf Hitems Hnd Ht.
  destruct (has_items_object st items Hitems) as (ps & -> & Hps).
  assert (Hm : mergedState toolInput widgetState (VObj ps) = VObj ps).
  { unfold mergedState, mergeBase. rewrite Hw, Hin.
    unfold coalesce. simpl nullish. cbv iota.
    unfold nextState, baseItems. rewrite Hitems. simpl array_or_empty.
    rewrite nextItems_nothing by assumption. simpl own_props.
    unfold obj_set. now rewrite (OMapFacts.set_id String.eqb ps "items" _ Hps). }
  split; [exact Hm|].
  unfold merge_effect. rewrite Hm, Hf.
  destruct (nullish toolInput && nullish toolOutput && nullish widgetState);
    [reflexivity|].
  destruct (JSON_stringify (VObj ps)) as [s|] eqn:Hs; [|reflexivity].
  simpl negb. simpl andb.
  destruct (jstr_eqb s last); [reflexivity|].
  unfold widgetStateEqual. simpl nullish. simpl andb. simpl orb. cbv iota.
  rewrite Hs. simpl. now rewrite jstr_eqb_refl.
Qed.

Lemma nothing_incoming_nothing_published_witness :
  let st := VObj [("cartId", VStr "c7"); ("items", VArr [item "A" 1; item "B" 2])] in
  mergedState (VObj [("note", VStr "typing")]) VNull st = st /\
  committed (merge_effect (VObj [("note", VStr "typing")]) VNull VNull st merge_unset)
    = None.
Proof.
  apply (nothing_incoming_nothing_published (VObj [("note", VStr "typing")])
           VNull VNull
           (VObj [("cartId", VStr "c7"); ("items", VArr [item "A" 1; item "B" 2])])
           [item "A" 1; item "B" 2] merge_unset); try reflexivity.
  - repeat constructor; simpl; intuition discriminate.
  - repeat constructor.
Defined.

(** X9. The merge keeps every other top-level field of the base state:
    a field other than [items] reads in the merged state as it does in
    the state the merge starts from ([widgetState] when it is an object,
    the cart state otherwise). *)
Theorem merge_keeps_other_fields toolInput widgetState cartState field :
  field <> "items"%string ->
  get_prop (mergedState toolInput widgetState cartState) field =
    get_prop (mergeBase widgetState cartState) field /\
  has_prop (mergedState toolInput widgetState cartState) field =
    has_prop (mergeBase widgetState cartState) field.
Proof.
  intros Hf. unfold mergedState, nextState, get_prop, has_prop, OMap.has,
    obj_get, obj_set. simpl own_props.
  rewrite (OMapFacts.get_set_other String.eqb string_eqb_eq) by congruence.
  now split.
Qed.

Lemma merge_keeps_other_fields_witness :
  get_prop (mergedState (cart_of [item "A" 2]) VNull
              (VObj [("cartId", VStr "c7"); ("items", VArr [item "B" 1])]))
    "cartId" = VStr "c7".
Proof.
  refine (eq_trans (proj1 (merge_keeps_other_fields (cart_of [item "A" 2]) VNull
            (VObj [("cartId", VStr "c7"); ("items", VArr [item "B" 1])])
            "cartId" _)) eq_refl).
  discriminate.
Defined.

Lemma keys_overlay_item m it :
  OMap.keys (overlay_item m it) = OMap.keys m \/
  (OMap.keys (overlay_item m it) = OMap.keys m ++ [get_prop it "name"] /\
   OMap.has value_eqb m (get_prop it "name") = false).
Proof.
  unfold overlay_item. destruct (truthy (get_prop it "name")); [|now left].
  destruct (OMap.has value_eqb m (get_prop it "name")) eqn:E.
  - left. now apply OMapFacts.keys_set_present.
  - right. split; [|reflexivity]. now apply OMapFacts.keys_set_absent.
Qed.

Lemma keys_overlay_all_append incoming m :
  exists fresh,
    OMap.keys (fold_left overlay_item incoming m) = OMap.keys m ++ fresh /\
    Forall (fun k => In k (names incoming) /\ OMap.has value_eqb m k = false) fresh.
Proof.
  revert m. induction incoming as [|it l IH]; intros m; simpl.
  - exists []. split; [now rewrite app_nil_r|constructor].
  - destruct (IH (overlay_item m it)) as (fresh & Hk & Hf).
    assert (Hmono : Forall (fun k => In k (names (it :: l)) /\
                                    OMap.has value_eqb m k = false) fresh).
    { revert Hf. apply Forall_impl. intros k [Hin Hhas]. split.
      - now right.
      - destruct (OMap.has value_eqb m k) eqn:E; [|reflexivity].
        now rewrite has_overlay_item in Hhas. }
    destruct (keys_overlay_item m it) as [E|[E Habs]]; rewrite E in Hk.
    + now exists fresh.
    + exists (get_prop it "name" :: fresh). split.
      * now rewrite Hk, <- app_assoc.
      * constructor; [|assumption]. split; [now left|assumption].
Qed.

(** X10. The merge does not reorder: the names of the merged items start
    with the names the base alone gives, in the same order, and the
    names that follow are names of incoming items that the base does
    not have. *)
Theorem merge_appends_new_names base incoming :
  Forall (fun it => well_formed it = true) incoming ->
  exists fresh,
    names (nextItems base incoming) = names (nextItems base []) ++ fresh /\
    Forall (fun k => In k (names incoming) /\ ~ In k (names (nextItems base [])))
           fresh.
Proof.
  intros Hwf. unfold nextItems.
  rewrite names_values by now apply itemsByName_named.
  rewrite names_values by (apply itemsByName_named; constructor).
  unfold itemsByName. simpl fold_left.
  destruct (keys_overlay_all_append incoming (fold_left index_item base []))
    as (fresh & Hk & Hf).
  exists fresh. split; [assumption|].
  revert Hf. apply Forall_impl. intros k [Hin Hhas]. split; [assumption|].
  intros H. apply (OMapFacts.has_In value_eqb value_eqb_eq) in H. congruence.
Qed.

Lemma merge_appends_new_names_witness :
  exists fresh,
    names (nextItems [item "B" 1; item "A" 1] [item "C" 1; item "A" 5]) =
    names (nextItems [item "B" 1; item "A" 1] []) ++ fresh.
Proof.
  destruct (merge_appends_new_names [item "B" 1; item "A" 1]
              [item "C" 1; item "A" 5]) as (fresh & H & _).
  - repeat constructor.
  - now exists fresh.
Defined.

Lemma get_entries base it :
  NoDup (names base) -> In it base ->
  OMap.get value_eqb (map entry_of base) (get_prop it "name") = Some it.
Proof.
  induction base as [|x base IH]; simpl; [contradiction|].
  intros Hnd Hin. inversion Hnd as [|? ? Hnotin Hnd']; subst.
  destruct Hin as [->|Hin].
  - now rewrite (OMapFacts.eqb_refl value_eqb value_eqb_eq).
  - destruct (value_eqb (get_prop x "name") (get_prop it "name")) eqn:E.
    + apply value_eqb_eq in E. exfalso. apply Hnotin. rewrite E.
      unfold names. apply in_map_iff. exists it. now split.
    + now apply IH.
Qed.

(** X11. An item of the base that no incoming item names comes out of
    the merge as it went in, when the base items have distinct truthy
    names. *)
Theorem untouched_item_survives base incoming it :
  NoDup (names base) -> Forall (fun k => truthy k = true) (names base) ->
  In it base ->
  Forall (fun x => get_prop x "name" <> get_prop it "name") incoming ->
  In it (nextItems base incoming).
Proof.
  intros Hnd Ht Hin Hother. unfold nextItems, itemsByName.
  apply (get_in_values value_eqb _ (get_prop it "name")).
  rewrite overlay_all_other by assumption.
  rewrite index_distinct by assumption.
  now apply get_entries.
Qed.

Lemma untouched_item_survives_witness :
  In (VObj [("name", VStr "B"); ("quantity", VNum 1); ("note", VStr "thin")])
     (nextItems
        [item "A" 1;
         VObj [("name", VStr "B"); ("quantity", VNum 1); ("note", VStr "thin")]]
        [item "A" 4; item "C" 2]).
Proof.
  apply (untouched_item_survives
           [item "A" 1;
            VObj [("name", VStr "B"); ("quantity", VNum 1); ("note", VStr "thin")]]
           [item "A" 4; item "C" 2]).
  - repeat constructor; simpl; intuition discriminate.
  - repeat constructor.
  - right. now left.
  - repeat constructor; discriminate.
Defined.

(** X12. Every incoming item with a truthy name is represented: the
    merged items hold an item of that name. *)
Theorem incoming_item_represented base incoming it :
  Forall (fun x => well_formed x = true) incoming ->
  In it incoming -> truthy (get_prop it "name") = true ->
  exists e, In e (nextItems base incoming) /\
            get_prop e "name" = get_prop it "name".
Proof.
  intros Hwf Hin Ht.
  pose proof (itemsByName_named base incoming Hwf) as [_ Hn].
  assert (E : existsb (named (get_prop it "name")) incoming = true).
  { apply existsb_exists. exists it. split; [assumption|now apply named_self]. }
  pose proof (get_overlay_all incoming (fold_left index_item base [])
                (get_prop it "name")) as G.
  rewrite E in G. fold (itemsByName base incoming) in G.
  eexists. split.
  - unfold nextItems. eapply get_in_values. exact G.
  - apply get_in in G. rewrite Forall_forall in Hn.
    now destruct (Hn _ G) as [_ Hname].
Qed.

Lemma incoming_item_represented_witness :
  exists e, In e (nextItems [item "A" 1] [item "B" 2; item "A" 3]) /\
            get_prop e "name" = get_prop (item "B" 2) "name".
Proof.
  apply (incoming_item_represented [item "A" 1] [item "B" 2; item "A" 3]
           (item "B" 2)).
  - repeat constructor.
  - now left.
  - reflexivity.
Defined.

(** X13. The merge is idempotent as a function: merging the items of a
    well-formed [toolInput] into the state that the same merge produced
    gives that state again. *)
Theorem merge_idempotent baseState toolInput :
  well_formed toolInput = true ->
  nextState (nextState baseState (incomingItems toolInput))
            (incomingItems toolInput) =
  nextState baseState (incomingItems toolInput).
Proof.
  intros Hwf. apply nextState_idem. now apply incomingItems_well_formed.
Qed.

Lemma merge_idempotent_witness :
  let toolInput := cart_of [item "A" 1; item "B" 2; item "A" 3] in
  let st := VObj [("cartId", VStr "c7"); ("items", VArr [item "B" 9])] in
  nextState (nextState st (incomingItems toolInput)) (incomingItems toolInput) =
  nextState st (incomingItems toolInput).
Proof.
  apply (merge_idempotent
           (VObj [("cartId", VStr "c7"); ("items", VArr [item "B" 9])])
           (cart_of [item "A" 1; item "B" 2; item "A" 3])).
  reflexivity.
Defined.

End MergeFacts.


(** ** More on the local edit *)

Module EditFacts.
Import JS Cart JSFacts CartFacts MergeFacts.
Local Open Scope list_scope.

Lemma findIndex_Some_first p l idx :
  findIndex p l = Some idx ->
  exists pre cur post,
    l = pre ++ cur :: post /\ List.length pre = idx /\ p cur = true /\
    Forall (fun x => p x = false) pre.
Proof.
  revert idx. induction l as [|x l IH]; simpl; intros idx; [discriminate|].
  destruct (p x) eqn:E.
  - intros H. inversion H. exists [], x, l. auto.
  - destruct (findIndex p l) as [i|]; simpl; [|discriminate].
    intros H. inversion H.
    destruct (IH i eq_refl) as (pre & cur & post & -> & <- & Hc & Hpre).
    exists (x :: pre), cur, post. repeat split; auto.
Qed.

(** The updater at the first item of the given name. *)
Lemma updater_found st pre cur post name delta q :
  get_prop st "items" = VArr (pre ++ cur :: post) ->
  Forall (fun it => get_prop it "name" <> VStr name) pre ->
  get_prop cur "name" = VStr name ->
  coalesce (get_prop cur "quantity") (VNum 0) = VNum q ->
  adjustQuantity_updater name delta st =
  Some (VObj (obj_set (own_props st) "items"
                (VArr (map shallow_copy pre
                       ++ (if Z.max 0 (q + delta) =? 0 then []
                           else [VObj (obj_set (own_props cur) "quantity"
                                         (VNum (Z.max 0 (q + delta))))])
                       ++ map shallow_copy post)))).
Proof.
  intros Hitems Hpre Hcur Hq. unfold adjustQuantity_updater.
  assert (Hst : coalesce st (VObj []) = st).
  { unfold coalesce. destruct st; try reflexivity; discriminate Hitems. }
  rewrite Hst, Hitems, map_app. simpl map.
  rewrite findIndex_first.
  - rewrite nth_middle.
    change (get_prop (shallow_copy cur) "quantity") with (get_prop cur "quantity").
    rewrite Hq. simpl plus_delta. cbv zeta.
    rewrite splice1_middle, assign_middle.
    now destruct (Z.max 0 (q + delta) =? 0).
  - now apply copies_not_named.
  - change (get_prop (shallow_copy cur) "name") with (get_prop cur "name").
    rewrite Hcur. now apply value_eqb_eq.
Qed.


(** X14. An edit keeps every other top-level field of the cart state:
    a field other than [items] reads after the edit as before. *)
Theorem edit_keeps_other_fields name delta st r field :
  adjustQuantity name delta st = Some r ->
  nullish st = false -> field <> "items"%string ->
  get_prop (edit_state r) field = get_prop st field.
Proof.
  unfold adjustQuantity. intros H Hn Hf.
  destruct (negb (truthy (VStr name)) || (delta =? 0)).
  - now inversion H.
  - unfold adjustQuantity_updater, coalesce in H. rewrite Hn in H.
    destruct (findIndex _ _); simpl in H.
    + destruct (plus_delta _ delta); simpl in H; [|discriminate].
      inversion H. simpl.
      unfold get_prop, obj_get, obj_set. simpl own_props.
      rewrite (OMapFacts.get_set_other String.eqb string_eqb_eq) by congruence.
      reflexivity.
    + now inversion H.
Qed.

Lemma edit_keeps_other_fields_witness :
  let st := VObj [("cartId", VStr "c7"); ("items", VArr [item "A" 1])] in
  get_prop (VObj [("cartId", VStr "c7"); ("items", VArr [])]) "cartId" =
  get_prop st "cartId".
Proof.
  refine (edit_keeps_other_fields "A" (-1)
            (VObj [("cartId", VStr "c7"); ("items", VArr [item "A" 1])])
            {| edit_state := VObj [("cartId", VStr "c7"); ("items", VArr [])];
               edit_committed := true |}
            "cartId" eq_refl eq_refl _).
  discriminate.
Defined.



Lemma cartItems_written baseState xs :
  cartItems (VObj (obj_set (own_props baseState) "items" (VArr xs))) = xs.
Proof. unfold cartItems. now read_written. Qed.

Lemma names_app l1 l2 : names (l1 ++ l2) = names l1 ++ names l2.
Proof. unfold names. apply map_app. Qed.

Lemma names_copies l : names (map shallow_copy l) = names l.
Proof. unfold names. rewrite map_map. reflexivity. Qed.

Lemma not_named_copies l name :
  Forall (fun it => get_prop it "name" <> VStr name) l ->
  Forall (fun it => get_prop it "name" <> VStr name) (map shallow_copy l).
Proof. intros H. apply Forall_map. exact H. Qed.

(** X16. Removal is final: once an edit has brought the only item of a
    name to zero, the item is gone from the cart, and no later edit for
    that name, whatever its delta, changes the cart state. *)
Theorem removal_is_final st pre cur post name delta q delta' :
  name <> EmptyString -> delta <> 0 ->
  get_prop st "items" = VArr (pre ++ cur :: post) ->
  Forall (fun it => get_prop it "name" <> VStr name) (pre ++ post) ->
  get_prop cur "name" = VStr name ->
  coalesce (get_prop cur "quantity") (VNum 0) = VNum q ->
  q + delta <= 0 ->
  exists r,
    adjustQuantity name delta st = Some r /\
    cartItems (edit_state r) = map shallow_copy pre ++ map shallow_copy post /\
    Forall (fun it => get_prop it "name" <> VStr name) (cartItems (edit_state r)) /\
    exists r',
      adjustQuantity name delta' (edit_state r) = Some r' /\
      edit_state r' = edit_state r.
Proof.
  intros Hn Hd Hitems Hothers Hcur Hq Hzero.
  apply Forall_app in Hothers. destruct Hothers as [Hpre Hpost].
  assert (E : adjustQuantity name delta st =
              Some {| edit_state :=
                        VObj (obj_set (own_props st) "items"
                                (VArr (map shallow_copy pre ++ map shallow_copy post)));
                      edit_committed := true |}).
  { unfold adjustQuantity. rewrite edit_guard_passes by assumption.
    rewrite (updater_found st pre cur post name delta q) by assumption.
    replace (Z.max 0 (q + delta)) with 0 by lia. reflexivity. }
  eexists. split; [exact E|]. cbn [edit_state].
  assert (Hitems' : cartItems (VObj (obj_set (own_props st) "items"
                       (VArr (map shallow_copy pre ++ map shallow_copy post)))) =
                    map shallow_copy pre ++ map shallow_copy post).
  { unfold cartItems. now read_written. }
  assert (Hnone : Forall (fun it => get_prop it "name" <> VStr name)
                    (map shallow_copy pre ++ map shallow_copy post)).
  { apply Forall_app. split; now apply not_named_copies. }
  split; [exact Hitems'|]. split; [now rewrite Hitems'|].
  unfold adjustQuantity.
  destruct (negb (truthy (VStr name)) || (delta' =? 0)).
  - eexists. split; reflexivity.
  - rewrite updater_missing by now rewrite Hitems'.
    eexists. split; reflexivity.
Qed.

Lemma removal_is_final_witness :
  exists r,
    adjustQuantity "A" (-1) (cart_of [item "B" 2; item "A" 1]) = Some r /\
    cartItems (edit_state r) = map shallow_copy [item "B" 2] ++ map shallow_copy [] /\
    Forall (fun it => get_prop it "name" <> VStr "A") (cartItems (edit_state r)) /\
    exists r',
      adjustQuantity "A" 1 (edit_state r) = Some r' /\
      edit_state r' = edit_state r.
Proof.
  apply (removal_is_final (cart_of [item "B" 2; item "A" 1]) [item "B" 2]
           (item "A" 1) [] "A" (-1) 1 1); try reflexivity.
  - discriminate.
  - lia.
  - repeat constructor. discriminate.
Defined.

(** X17. An edit never leaves an item at zero: when every item of the
    cart holds a quantity of at least one, the edit is defined and
    every item of the resulting cart holds a quantity of at least
    one. *)
Theorem edit_keeps_quantities_positive name delta st :
  forallb quantity_positive (cartItems st) = true ->
  exists r,
    adjustQuantity name delta st = Some r /\
    forallb quantity_positive (cartItems (edit_state r)) = true.
Proof.
  intros Hst. unfold adjustQuantity.
  destruct (negb (truthy (VStr name)) || (delta =? 0)).
  { eexists. split; [reflexivity|assumption]. }
  unfold adjustQuantity_updater.
  assert (Hbase : forallb quantity_positive (cartItems (coalesce st (VObj []))) = true).
  { unfold coalesce. now destruct (nullish st). }
  rewrite copied_items.
  remember (coalesce st (VObj [])) as baseState eqn:Eb. clear Eb Hst st.
  assert (Hitems : Forall (fun it => quantity_positive it = true)
                     (map shallow_copy (cartItems baseState))).
  { apply Forall_map. apply Forall_forall. intros x Hx.
    change (quantity_positive (shallow_copy x)) with (quantity_positive x).
    rewrite forallb_forall in Hbase. auto. }
  destruct (findIndex _ (map shallow_copy (cartItems baseState))) as [idx|] eqn:F.
  - apply findIndex_Some in F. destruct F as (pre & cur & post & E & <- & _).
    rewrite E in *. rewrite nth_middle.
    apply Forall_app in Hitems. destruct Hitems as [Hpre Hrest].
    inversion Hrest as [|? ? Hcur Hpost]; subst.
    unfold quantity_positive in Hcur.
    destruct (get_prop cur "quantity") as [| |b|q|q|s|xs|ps] eqn:Q;
      try discriminate.
    simpl. eexists. split; [reflexivity|]. cbn [edit_state].
    rewrite forallb_forall.
    unfold cartItems. read_written. simpl array_or_empty.
    apply Forall_forall.
    destruct (Z.max 0 (q + delta) =? 0) eqn:Z0.
    + rewrite splice1_middle. apply Forall_app. auto.
    + rewrite assign_middle. apply Forall_app. split; [assumption|].
      constructor; [|assumption].
      unfold quantity_positive. read_written.
      apply Z.eqb_neq in Z0. apply Z.leb_le. lia.
  - simpl. eexists. split; [reflexivity|assumption].
Qed.

Lemma edit_keeps_quantities_positive_witness :
  exists r,
    adjustQuantity "A" (-3) (cart_of [item "A" 2; item "B" 1]) = Some r /\
    forallb quantity_positive (cartItems (edit_state r)) = true.
Proof.
  apply (edit_keeps_quantities_positive "A" (-3) (cart_of [item "A" 2; item "B" 1])).
  reflexivity.
Defined.

Lemma edit_names_cases name delta st r :
  adjustQuantity name delta st = Some r ->
  names (cartItems (edit_state r)) = names (cartItems st) \/
  exists l1 l2,
    names (cartItems st) = l1 ++ VStr name :: l2 /\
    ~ In (VStr name) l1 /\
    names (cartItems (edit_state r)) = l1 ++ l2.
Proof.
  unfold adjustQuantity.
  destruct (negb (truthy (VStr name)) || (delta =? 0)).
  { intros H. inversion H. now left. }
  unfold adjustQuantity_updater. rewrite copied_items.
  assert (Hbase : cartItems (coalesce st (VObj [])) = cartItems st).
  { unfold coalesce. now destruct st. }
  remember (coalesce st (VObj [])) as baseState eqn:Eb. clear Eb.
  rewrite <- Hbase. clear Hbase st.
  destruct (findIndex _ (map shallow_copy (cartItems baseState))) as [idx|] eqn:F.
  - apply findIndex_Some_first in F.
    destruct F as (pre & cur & post & E & <- & Hcur & Hpre).
    apply value_eqb_eq in Hcur.
    assert (Hnames : names (cartItems baseState) =
                     names pre ++ VStr name :: names post).
    { rewrite <- names_copies, E, names_app. simpl. now rewrite Hcur. }
    assert (Hnotin : ~ In (VStr name) (names pre)).
    { unfold names. rewrite in_map_iff. intros (x & Hx & Hin).
      rewrite Forall_forall in Hpre. specialize (Hpre x Hin).
      rewrite Hx in Hpre.
      now rewrite (OMapFacts.eqb_refl value_eqb value_eqb_eq) in Hpre. }
    rewrite E, nth_middle.
    destruct (plus_delta _ delta) as [sum|]; simpl; [|discriminate].
    intros H. inversion H. cbn [edit_state].
    rewrite cartItems_written.
    destruct (Z.max 0 sum =? 0).
    + right. exists (names pre), (names post).
      rewrite splice1_middle, names_app. auto.
    + left. rewrite assign_middle, Hnames, names_app. simpl. f_equal. f_equal.
      unfold get_prop, obj_get, obj_set. simpl own_props.
      rewrite (OMapFacts.get_set_other String.eqb string_eqb_eq) by discriminate.
      exact Hcur.
  - simpl. intros H. inversion H. now left.
Qed.

(** X18. An edit adds no item and renames none: the names of the items
    after the edit are the names before it, in order, except that the
    first occurrence of the edited name may be gone. *)
Theorem edit_keeps_names name delta st r :
  adjustQuantity name delta st = Some r ->
  names (cartItems (edit_state r)) = names (cartItems st) \/
  exists l1 l2,
    names (cartItems st) = l1 ++ VStr name :: l2 /\
    ~ In (VStr name) l1 /\
    names (cartItems (edit_state r)) = l1 ++ l2.
Proof. apply edit_names_cases. Qed.

Lemma edit_keeps_names_witness :
  names (cartItems (cart_of [item "B" 2; item "A" 4])) =
    names (cartItems (cart_of [item "B" 2; item "A" 1])) \/
  exists l1 l2,
    names (cartItems (cart_of [item "B" 2; item "A" 1])) = l1 ++ VStr "A" :: l2 /\
    ~ In (VStr "A") l1 /\
    names (cartItems (cart_of [item "B" 2; item "A" 4])) = l1 ++ l2.
Proof.
  apply (edit_keeps_names "A" 3 (cart_of [item "B" 2; item "A" 1])
           {| edit_state := cart_of [item "B" 2; item "A" 4];
              edit_committed := true |}).
  reflexivity.
Defined.

End EditFacts.


(** ** Invariants of the state cell *)

Module HistoryFacts.
Import JS Cart JSFacts CartFacts MergeFacts EditFacts.
Local Open Scope list_scope.

Lemma merged_is_object toolInput widgetState cartState :
  truthy (mergedState toolInput widgetState cartState)
  && typeof_object (mergedState toolInput widgetState cartState) = true.
Proof. reflexivity. Qed.

Lemma ref_after_string toolInput toolOutput widgetState cartState s :
  exists s',
    ref_after (merge_effect toolInput toolOutput widgetState cartState (Some s))
    = Some s'.
Proof.
  unfold merge_effect.
  destruct (nullish toolInput && nullish toolOutput && nullish widgetState);
    [simpl; eauto|].
  destruct (JSON_stringify (mergedState toolInput widgetState cartState))
    as [o|] eqn:Hs; [|simpl; eauto].
  assert (Ho : exists s', o = Some s').
  { destruct o as [s'|]; [eauto|].
    unfold mergedState, nextState in Hs. now apply stringify_obj_some in Hs. }
  destruct Ho as [s' ->].
  destruct (negb (shouldForceSyncFromResponse widgetState toolOutput)
            && jstr_eqb (Some s') (Some s)); [simpl; eauto|].
  destruct (shouldForceSyncFromResponse widgetState toolOutput); [simpl; eauto|].
  destruct (widgetStateEqual _ cartState) as [[|]|]; simpl; eauto.
Qed.

Lemma step_cell_ok ev e e' : cell_ok e -> step ev e = Some e' -> cell_ok e'.
Proof.
  intros [Hc [s Hs]]. destruct ev as [ti to ws|name delta]; simpl.
  - intros H. inversion H. unfold run_merge, cell_ok. simpl. split.
    + destruct (committed_cases ti to ws (cartState e) (lastMergedStateRef e))
        as [-> | ->]; simpl; [assumption|reflexivity].
    + rewrite Hs. apply ref_after_string.
  - unfold run_edit, adjustQuantity.
    destruct (negb (truthy (VStr name)) || (delta =? 0)); simpl.
    + intros H. inversion H. split; simpl; eauto.
    + unfold adjustQuantity_updater.
      assert (Hb : coalesce (cartState e) (VObj []) = cartState e).
      { unfold coalesce. now destruct (cartState e). }
      rewrite Hb.
      destruct (findIndex _ _); simpl.
      * destruct (plus_delta _ delta); simpl; [|discriminate].
        intros H. inversion H. split; simpl; eauto.
      * intros H. inversion H. split; simpl; eauto.
Qed.

(** X19. Along every history of merge runs and edits the cart state is
    an object in the sense of [typeof] (never [null], [undefined] or a
    primitive) and the reference holds a string. *)
Theorem cell_stays_object widgetState evs e :
  run evs (initial widgetState) = Some e ->
  truthy (cartState e) && typeof_object (cartState e) = true /\
  exists s, lastMergedStateRef e = Some s.
Proof.
  assert (H0 : cell_ok (initial widgetState)).
  { split; simpl; [|unfold merge_unset; eauto]. unfold initialCartState.
    now destruct (truthy widgetState && typeof_object widgetState) eqn:E. }
  revert H0. generalize (initial widgetState). clear widgetState.
  induction evs as [|ev evs IH]; intros e0 H0; simpl.
  - intros H. inversion H. now subst.
  - destruct (step ev e0) as [e1|] eqn:S; [|discriminate].
    apply IH. now apply (step_cell_ok ev e0).
Qed.

Lemma cell_stays_object_witness :
  let e := {| cartState := cart_of [item "A" 2];
              lastMergedStateRef := serialized (cart_of [item "A" 1]) |} in
  truthy (cartState e) && typeof_object (cartState e) = true /\
  exists s, lastMergedStateRef e = Some s.
Proof.
  apply (cell_stays_object (VNum 3)
           [Merge (cart_of [item "A" 1]) VNull VNull; Edit "A" 1]).
  reflexivity.
Defined.

Lemma merged_names_NoDup toolInput widgetState cartState :
  well_formed toolInput = true ->
  NoDup (names (cartItems (mergedState toolInput widgetState cartState))).
Proof.
  intros Hwf. apply incomingItems_well_formed in Hwf.
  unfold cartItems. rewrite cartItems_mergedState. simpl array_or_empty.
  unfold nextItems. rewrite names_values by now apply itemsByName_named.
  now apply itemsByName_named.
Qed.

Lemma step_names ev e e' :
  well_formed_event ev = true -> NoDup (names (cartItems (cartState e))) ->
  step ev e = Some e' -> NoDup (names (cartItems (cartState e'))).
Proof.
  intros Hwf Hnd. destruct ev as [ti to ws|name delta]; simpl in *.
  - intros H. inversion H. unfold run_merge. simpl.
    destruct (committed_cases ti to ws (cartState e) (lastMergedStateRef e))
      as [-> | ->]; simpl; [assumption|].
    now apply merged_names_NoDup.
  - unfold run_edit.
    destruct (adjustQuantity name delta (cartState e)) as [r|] eqn:E;
      simpl; [|discriminate].
    intros H. inversion H. simpl.
    destruct (edit_names_cases name delta (cartState e) r E)
      as [->|(l1 & l2 & Hbefore & _ & ->)]; [assumption|].
    rewrite Hbefore in Hnd. now apply NoDup_remove_1 in Hnd.
Qed.

(** X20. Names stay distinct: from a cart whose items have distinct
    names, every history with well-formed [toolInput]s leads to a cart
    whose items have distinct names. *)
Theorem names_stay_distinct widgetState evs e :
  NoDup (names (cartItems (initialCartState widgetState))) ->
  forallb well_formed_event evs = true ->
  run evs (initial widgetState) = Some e ->
  NoDup (names (cartItems (cartState e))).
Proof.
  intros H0.
  change (initialCartState widgetState) with (cartState (initial widgetState)) in H0.
  revert H0. generalize (initial widgetState). clear widgetState.
  induction evs as [|ev evs IH]; intros e0 H0 Hwf; simpl.
  - intros H. inversion H. now subst.
  - simpl in Hwf. apply andb_true_iff in Hwf. destruct Hwf as [Hev Hwf].
    destruct (step ev e0) as [e1|] eqn:S; [|discriminate].
    apply IH; [|assumption]. now apply (step_names ev e0).
Qed.

Lemma names_stay_distinct_witness :
  NoDup (names (cartItems (cart_of [item "A" 2; item "B" 1]))).
Proof.
  apply (names_stay_distinct VNull
           [Merge (cart_of [item "A" 1; item "B" 1; item "A" 3]) VNull VNull;
            Edit "A" (-1)]
           {| cartState := cart_of [item "A" 2; item "B" 1];
              lastMergedStateRef :=
                serialized (cart_of [item "A" 3; item "B" 1]) |}).
  - constructor.
  - reflexivity.
  - reflexivity.
Defined.

End HistoryFacts.


(** ** Edits and the re-run of the effect *)

Module RerunFacts.
Import JS Cart JSFacts CartFacts MergeFacts EditFacts.
Local Open Scope list_scope.












End RerunFacts.

(** ** [useWidgetProps] *)

Module WidgetPropsFacts.
Import JS WidgetProps JSFacts.

Lemma is_object_not_nullish v : is_object v = true -> nullish v = false.
Proof. now destruct v. Qed.

(** X22. [useWidgetProps] never returns [null] or [undefined]; a
    [structuredContent] that is an object is returned whatever
    [toolOutput] and the default are; one that is not an object (a
    string, a number, [null]) is passed over, and then a [toolOutput]
    that is not nullish is returned whatever the default is. *)
Theorem useWidgetProps_resolution toolResponse toolOutput defaultState :
  nullish (useWidgetProps toolResponse toolOutput defaultState) = false /\
  (is_object (get_prop toolResponse "structuredContent") = true ->
   useWidgetProps toolResponse toolOutput defaultState =
     get_prop toolResponse "structuredContent") /\
  (is_object (get_prop toolResponse "structuredContent") = false ->
   nullish toolOutput = false ->
   useWidgetProps toolResponse toolOutput defaultState = toolOutput).
Proof.
  unfold useWidgetProps, coalesce.
  destruct (is_object (get_prop toolResponse "structuredContent")) eqn:E.
  - apply is_object_not_nullish in E. rewrite !E.
    split; [reflexivity|]. split; [reflexivity|discriminate].
  - cbn [nullish]. split; [|split; [discriminate|]].
    + destruct (nullish toolOutput) eqn:N1.
      * destruct defaultState as [v|result].
        -- destruct (nullish v) eqn:N2; cbn [nullish]; [reflexivity|].
           now rewrite !N2.
        -- destruct (nullish result) eqn:N2; [reflexivity|]. exact N2.
      * now rewrite !N1.
    + intros _ N1. now rewrite !N1.
Qed.

End WidgetPropsFacts.
